(** * Streaming speech-to-text service (ovms/scripts/speech-to-text/whisper.py)

    A shallow embedding of the session buffering, voice-activity
    segmentation, timestamp reconciliation and caption rendering code of
    [whisper.py], followed by the properties established about it.

    Conventions of the embedding.
    - Python [bytes] are [list Byte.byte]; an [np.int16] array is a
      [list Z] of values in [-32768, 32767].
    - Python [float] values that carry durations and timestamps are exact
      rationals [Q]; equalities between them are stated with [==].
    - The session dictionary [self.audio_cache] is a [gmap string Session].
    - A Python exception is [None] (or the [error] status where the source
      catches it). State changes made before the exception are kept, as in
      the source.
    - The neural engine, the per-frame VAD primitive, the resampler and the
      float32 conversions are collaborators: the fields of a class. *)

From Stdlib Require Import ZArith QArith Qround Lia Lqa List.
From Stdlib Require Import Strings.String Strings.Ascii Init.Byte.
From Stdlib Require Import Numbers.DecimalString.
From stdpp Require Import base option list strings gmap.

Local Open Scope string_scope.
Local Open Scope list_scope.
Local Open Scope Z_scope.

(** ** Configuration constants *)

Definition TARGET_SAMPLE_RATE : Z := 16000.
Definition FRAME_DURATION_MS : Z := 30.
(** [int(x)] on a Python float: truncation towards zero. *)
Definition py_int (q : Q) : Z := Z.quot (Qnum q) (Zpos (Qden q)).
Definition VAD_FRAME_SIZE : Z :=
  py_int (inject_Z (TARGET_SAMPLE_RATE * FRAME_DURATION_MS) / 1000).
Definition HALLUCINATE_THRESHOLD : Q := 100.
Definition TARGET_BUFFER_LENGTH : Q := 3.

(** ** Python primitives used by the source *)

Definition bytes := list Byte.byte.

Definition len {A} (l : list A) : Z := Z.of_nat (length l).

(** [a / b] on floats; [ZeroDivisionError] is [None]. *)
Definition py_truediv (a b : Q) : option Q :=
  if Qeq_bool b 0 then None else Some (a / b)%Q.

Definition Qlt_bool (a b : Q) : bool := negb (Qle_bool b a).

(** [data[n:]], with Python's reading of a negative [n]. *)
Definition slice_from {A} (n : Z) (l : list A) : list A :=
  if n <? 0 then drop (Z.to_nat (Z.max 0 (len l + n))) l
  else drop (Z.to_nat n) l.

(** [data[a:b]] for [0 <= a]. *)
Definition slice {A} (a b : Z) (l : list A) : list A :=
  take (Z.to_nat (b - a)) (drop (Z.to_nat a) l).

(** Decimal rendering of a non-negative integer, as [str(n)]. *)
Definition str_of_Z (n : Z) : string :=
  NilZero.string_of_uint (N.to_uint (Z.to_N n)).

(** [f"{n:0wd}"] for a non-negative [n]: left padding with zeros. *)
Fixpoint zeros (k : nat) : string :=
  match k with O => "" | S k' => String "0" (zeros k') end.
Definition zfill (w : nat) (n : Z) : string :=
  let s := str_of_Z n in
  zeros (w - String.length s) +:+ s.

(** [str.strip()] restricted to the ASCII white space characters. *)
Definition is_space (c : ascii) : bool :=
  let n := nat_of_ascii c in
  ((9 <=? n) && (n <=? 13) || (28 <=? n) && (n <=? 32))%nat.
Fixpoint lstrip (s : string) : string :=
  match s with
  | String c r => if is_space c then lstrip r else s
  | EmptyString => EmptyString
  end.
Definition strip (s : string) : string :=
  String.rev (lstrip (String.rev (lstrip s))).

(** ** [datetime.timedelta(seconds=...)]

    The constructor rounds to the nearest microsecond (ties to even) and
    normalises to [days], [0 <= seconds < 86400] and
    [0 <= microseconds < 1000000]; it raises [OverflowError] when
    [|days| > 999999999]. *)

Record timedelta := mk_timedelta {
  td_days : Z;
  td_seconds : Z;
  td_microseconds : Z
}.

Definition round_half_even (q : Q) : Z :=
  let f := Qfloor q in
  match ((q - inject_Z f) ?= (1 # 2))%Q with
  | Lt => f
  | Gt => f + 1
  | Eq => if Z.even f then f else f + 1
  end.

Definition US_PER_DAY : Z := 86400 * 1000000.

Definition timedelta_of_us (us : Z) : timedelta :=
  mk_timedelta (us / US_PER_DAY)
               ((us mod US_PER_DAY) / 1000000)
               (us mod 1000000).

Definition timedelta_seconds (s : Q) : option timedelta :=
  let td := timedelta_of_us (round_half_even (s * 1000000)) in
  if Z.abs (td_days td) <=? 999999999 then Some td else None.

(** ** Caption rendering *)

Definition format_timedelta (td : timedelta) : string :=
  let hours := td_seconds td / 3600 in
  let minutes := (td_seconds td mod 3600) / 60 in
  let seconds := td_seconds td mod 60 in
  let milliseconds := td_microseconds td / 1000 in
  zfill 2 hours +:+ ":" +:+ zfill 2 minutes +:+ ":" +:+ zfill 2 seconds
    +:+ "," +:+ zfill 3 milliseconds.

(** A transcript chunk: the engine's [WhisperDecodedResultChunk] and the
    dictionaries built from it have the same three fields. *)
Record Chunk := mk_chunk {
  text : string;
  start_ts : Q;
  end_ts : Q
}.

Definition NL : string := String (ascii_of_nat 10) "".

Definition srt_entry (i : Z) (c : Chunk) (time_offset : Q) : option string :=
  start_time ← timedelta_seconds (start_ts c + time_offset);
  end_time ← timedelta_seconds (end_ts c + time_offset);
  Some (str_of_Z i +:+ NL
        +:+ format_timedelta start_time +:+ " --> "
        +:+ format_timedelta end_time +:+ NL
        +:+ strip (text c) +:+ NL).

Fixpoint srt_entries (i : Z) (chunks : list Chunk) (time_offset : Q)
  : option (list string) :=
  match chunks with
  | [] => Some []
  | c :: r =>
      e ← srt_entry i c time_offset;
      es ← srt_entries (i + 1) r time_offset;
      Some (e :: es)
  end.

Fixpoint join (sep : string) (l : list string) : string :=
  match l with
  | [] => ""
  | [s] => s
  | s :: r => s +:+ sep +:+ join sep r
  end.

Definition create_srt_content (chunks : list Chunk) (time_offset : Q)
  : option string :=
  es ← srt_entries 1 chunks time_offset;
  Some (join NL es).

(** ** PCM buffers *)

Definition int16_of_le (lo hi : Byte.byte) : Z :=
  let u := Z.of_N (Byte.to_N lo) + 256 * Z.of_N (Byte.to_N hi) in
  if u <? 32768 then u else u - 65536.

Fixpoint int16_pairs (b : bytes) : list Z :=
  match b with
  | lo :: hi :: r => int16_of_le lo hi :: int16_pairs r
  | _ => []
  end.

(** [np.frombuffer(b, dtype=np.int16)]: [ValueError] unless the length is a
    multiple of the element size. *)
Definition frombuffer_int16 (b : bytes) : option (list Z) :=
  if len b mod 2 =? 0 then Some (int16_pairs b) else None.

Definition byte_of_Z (z : Z) : Byte.byte :=
  match Byte.of_N (Z.to_N (z mod 256)) with
  | Some b => b
  | None => Byte.x00
  end.

(** [a.tobytes()] of an int16 array (little endian). *)
Definition tobytes_int16 (l : list Z) : bytes :=
  flat_map (fun x => [byte_of_Z x; byte_of_Z (x / 256)]) l.

(** Wrap-around of an int16 result. *)
Definition wrap_int16 (z : Z) : Z := (z + 32768) mod 65536 - 32768.

(** [np.abs] on an int16 array keeps the dtype: [abs(-32768)] wraps. *)
Definition np_abs_int16 (x : Z) : Z := wrap_int16 (Z.abs x).

Definition sumZ (l : list Z) : Z := fold_right Z.add 0 l.

(** [np.mean] of an integer array; [nan] (empty array) is [None]. *)
Definition np_mean (l : list Z) : option Q :=
  match l with
  | [] => None
  | _ => Some (inject_Z (sumZ l) / inject_Z (len l))%Q
  end.

(** [calculate_pcm_duration]: the argument is either [bytes] or an array,
    of which only the length matters. *)
Definition calculate_pcm_duration {A} (pcm_data : bytes + list A)
    (sample_rate : Z) (is_int16 : bool) : option Q :=
  let num_samples :=
    match pcm_data with
    | inl b => if is_int16 then len b / 2 else len b / 4
    | inr a => len a
    end in
  py_truediv (inject_Z num_samples) (inject_Z sample_rate).

Definition check_buffer_status (buffer_data : bytes) (sample_rate : Z)
    (is_int16 : bool) (target_length : Q) : option (Q * bool) :=
  buffer_duration ← calculate_pcm_duration (A:=Z) (inl buffer_data)
                      sample_rate is_int16;
  let is_ready := Qle_bool target_length buffer_duration in
  Some (buffer_duration, is_ready).

(** ** Enhanced VAD processor: configuration and frame automaton *)

Record EnhancedVadProcessor := mk_vad {
  sample_rate : Z;
  vad_frame_size : Z;
  vad_mode : Z;
  min_speech_frames : Z;
  min_silence_frames : Z;
  speech_pad_frames : Z;
  hallucinate_threshold : Q
}.

(** [EnhancedVadProcessor.__init__]: durations in ms become frame counts. *)
Definition vad_init (sample_rate vad_frame_size vad_mode : Z)
    (min_speech_duration_ms min_silence_duration_ms speech_pad_ms : Q)
    (hallucinate_threshold : Q) : EnhancedVadProcessor :=
  mk_vad sample_rate vad_frame_size vad_mode
    (py_int (min_speech_duration_ms / inject_Z FRAME_DURATION_MS))
    (py_int (min_silence_duration_ms / inject_Z FRAME_DURATION_MS))
    (py_int (speech_pad_ms / inject_Z FRAME_DURATION_MS))
    hallucinate_threshold.

(** The constructor's defaults for the three durations. *)
Definition vad_default (sample_rate vad_frame_size vad_mode : Z)
    (hallucinate_threshold : Q) : EnhancedVadProcessor :=
  vad_init sample_rate vad_frame_size vad_mode 250 500 400
    hallucinate_threshold.

Definition _is_audio_loud_enough (self : EnhancedVadProcessor)
    (audio_np : list Z) : bool :=
  match np_mean (map np_abs_int16 audio_np) with
  | Some amplitude => Qlt_bool (hallucinate_threshold self) amplitude
  | None => false
  end.

(** The state variables set by [reset_state] and used by [segment_audio]. *)
Record VadState := mk_state {
  is_speech : bool;
  silence_frames : Z;
  speech_frame_count : Z;
  speech_start_frame : Z
}.

Definition reset_state : VadState := mk_state false 0 0 0.

(** One iteration of the [while i < frame_count] loop of [segment_audio]:
    the new state and the frame indices of the segment saved, if any. *)
Definition vad_step (self : EnhancedVadProcessor) (st : VadState) (i : Z)
    (speech : bool) : VadState * option (Z * Z) :=
  if negb (is_speech st) && speech then
    (mk_state true 0 1 (Z.max 0 (i - speech_pad_frames self)), None)
  else if is_speech st then
    let st1 :=
      if speech
      then mk_state true 0 (speech_frame_count st + 1) (speech_start_frame st)
      else mk_state true (silence_frames st + 1) (speech_frame_count st)
             (speech_start_frame st) in
    if min_silence_frames self <=? silence_frames st1 then
      (mk_state false 0 0 (speech_start_frame st1),
       if min_speech_frames self <=? speech_frame_count st1
       then Some (speech_start_frame st1, i - silence_frames st1 + 1)
       else None)
    else (st1, None)
  else (st, None).

Fixpoint vad_loop (self : EnhancedVadProcessor) (st : VadState) (i : Z)
    (is_speech_frames : list bool) : VadState * list (Z * Z) :=
  match is_speech_frames with
  | [] => (st, [])
  | b :: r =>
      let '(st1, out) := vad_step self st i b in
      let '(st2, outs) := vad_loop self st1 (i + 1) r in
      (st2, match out with Some s => s :: outs | None => outs end)
  end.

(** Frame indices of all segments: the loop, then the segment still open at
    the end of the buffer. *)
Definition speech_segments_indices (self : EnhancedVadProcessor)
    (frame_count : Z) (is_speech_frames : list bool) : list (Z * Z) :=
  let '(st, idx) := vad_loop self reset_state 0 is_speech_frames in
  if is_speech st && (min_speech_frames self <=? speech_frame_count st)
  then idx ++ [(speech_start_frame st, frame_count)]
  else idx.

Definition frame_time (frame : Z) : Q :=
  (inject_Z (frame * FRAME_DURATION_MS) / 1000)%Q.

Definition frame_times (p : Z * Z) : Q * Q :=
  (frame_time (fst p), frame_time (snd p)).

(** ** Session store, request parameters and responses *)

Module Session.
(** One entry of [self.audio_cache]. The key ["language"] is absent until
    a round has produced chunks. *)
Record t := mk {
  audio_buffer : bytes;
  sample_rate : Z;
  is_int16 : bool;
  processed_length : Q;
  accumulated_chunks : list Chunk;
  overlap_buffer : bytes;
  last_segment_start_time : Q;
  language : option string
}.

Definition set_audio_buffer (b : bytes) (s : t) : t :=
  mk b (sample_rate s) (is_int16 s) (processed_length s)
     (accumulated_chunks s) (overlap_buffer s) (last_segment_start_time s)
     (language s).
Definition set_overlap (b : bytes) (start : Q) (s : t) : t :=
  mk (audio_buffer s) (sample_rate s) (is_int16 s) (processed_length s)
     (accumulated_chunks s) b start (language s).
Definition set_processed_length (d : Q) (s : t) : t :=
  mk (audio_buffer s) (sample_rate s) (is_int16 s) d
     (accumulated_chunks s) (overlap_buffer s) (last_segment_start_time s)
     (language s).
Definition add_chunks (lang : string) (cs : list Chunk) (s : t) : t :=
  mk (audio_buffer s) (sample_rate s) (is_int16 s) (processed_length s)
     (accumulated_chunks s ++ cs) (overlap_buffer s)
     (last_segment_start_time s) (Some lang).
End Session.

Module Params.
(** The entries of [params] read by the streaming service. [action] is
    read with [params.get("action", "")]. *)
Record t := mk {
  language : string;
  sample_rate : Z;
  is_int16 : bool;
  use_vad : bool;
  hallucinate_threshold : Q;
  vad_mode : Z;
  time_offset : Q;
  task_id : string;
  clear_cache : bool;
  target_buffer_length : Q;
  action : option string
}.
End Params.

(** What a caught exception leaves in the ["message"] field is [str(e)];
    only the fixed message of the source is kept apart. *)
Inductive ErrorCause :=
| FirstCallMustProvideAudio
| CaughtException.

Inductive Response :=
| cache_cleared
| completed (content : string) (message : string)
| error (cause : ErrorCause)
| buffering (buffered_seconds : Q)
| processing (content : string) (current_chunks total_chunks : Z)
| no_speech_detected (processed_seconds total_processed : Q)
| raise_ValueError (message : string)
| raise_OverflowError.


(** [code if code is "<|..|>" else f"<|{code}|>"]. *)
Definition format_language (language_code : string) : string :=
  if String.prefix "<|" language_code
     && String.prefix ">|" (String.rev language_code)
  then language_code
  else "<|" +:+ language_code +:+ "|>".

(** ** The service, over its collaborators *)

(** The external parts of the service. *)
Class Collaborators := {
  (** float32 samples, on which numpy and the engine work. *)
  F32 : Type;
  (** [np.frombuffer(b, dtype=np.float32)] on a buffer of whole samples. *)
  f32_frombuffer : bytes -> list F32;
  (** [x.astype(np.float32) / 32768.0] on one int16 sample. *)
  f32_of_int16 : Z -> F32;
  (** [(x * 32768.0).astype(np.int16)] on one float32 sample. *)
  int16_of_f32 : F32 -> Z;
  (** [librosa.resample(a, orig_sr=sr, target_sr=16000)]. *)
  resample : Z -> list F32 -> list F32;
  (** [webrtcvad.Vad(mode).is_speech(frame, sample_rate)]; [None] when it
      raises. *)
  vad_is_speech : Z -> bytes -> Z -> option bool;
  (** [pipe.generate(audio, config).chunks] for the configured language;
      [None] when the engine raises. *)
  generate : list F32 -> string -> option (list Chunk)
}.

Section Service.

Context `{C : Collaborators}.

(** A segment handed to the engine: [(audio, start_time, end_time)]. *)
Definition Segment : Type := list F32 * Q * Q.

Definition frombuffer_float32 (b : bytes) : option (list F32) :=
  if len b mod 4 =? 0 then Some (f32_frombuffer b) else None.

Definition process_pcm_data (pcm_data : bytes) (sample_rate : Z)
    (is_int16 : bool) : option (list F32) :=
  pcm ← (if is_int16
         then map f32_of_int16 <$> frombuffer_int16 pcm_data
         else frombuffer_float32 pcm_data);
  Some (if sample_rate =? TARGET_SAMPLE_RATE then pcm
        else resample sample_rate pcm).

Definition _transfer_audiodata_to_float (frame_data : list Z) : list F32 :=
  map f32_of_int16 frame_data.

Definition process_frame (self : EnhancedVadProcessor)
    (frame_data : list Z) : bool :=
  match vad_is_speech (vad_mode self) (tobytes_int16 frame_data)
          (sample_rate self) with
  | Some b => b
  | None => false
  end.

(** Steps 1 and 2 of [segment_audio]: the frames and their verdicts. *)
Definition classify_frames (self : EnhancedVadProcessor)
    (audio_data : list Z) (frame_count : Z) : list bool :=
  let fs := vad_frame_size self in
  map (fun i => process_frame self (slice (i * fs) ((i + 1) * fs) audio_data))
      (seqZ 0 frame_count).

(** [segment_audio]; with [return_timestamps = False] the caller receives
    the first component only. [None] is the [ZeroDivisionError] of a zero
    frame size or sample rate. *)
Definition segment_audio (self : EnhancedVadProcessor)
    (audio_data : list Z) (return_timestamps : bool)
    : option (list (list F32) * list (Q * Q)) :=
  let fs := vad_frame_size self in
  if fs =? 0 then None else
  let frame_count := len audio_data / fs in
  let is_speech_frames := classify_frames self audio_data frame_count in
  let indices := speech_segments_indices self frame_count is_speech_frames in
  let timestamps := map frame_times indices in
  let segments :=
    map (fun p : Z * Z =>
           let start_sample := fst p * fs in
           let end_sample := Z.min (snd p * fs) (len audio_data) in
           _transfer_audiodata_to_float
             (slice start_sample end_sample audio_data))
        indices in
  match segments with
  | [] =>
      if return_timestamps then
        d ← py_truediv (inject_Z (len audio_data))
              (inject_Z (sample_rate self));
        Some ([_transfer_audiodata_to_float audio_data],
              timestamps ++ [(0%Q, d)])
      else Some ([_transfer_audiodata_to_float audio_data], timestamps)
  | _ => Some (segments, timestamps)
  end.

(** [process_audio] with a callback. *)
Definition process_audio (self : EnhancedVadProcessor) (audio_data : list Z)
    (process_callback : list F32 -> Q -> Q -> Segment)
    : option (list Segment) :=
  '(segments, timestamps) ← segment_audio self audio_data true;
  Some (map (fun st : list F32 * (Q * Q) =>
               process_callback (fst st) (fst (snd st)) (snd (snd st)))
            (zip segments timestamps)).

(** The closure [process_segment] of [process_with_vad]. *)
Definition process_segment (sample_rate : Z) (segment : list F32)
    (start_time end_time : Q) : Segment :=
  (if sample_rate =? TARGET_SAMPLE_RATE then segment
   else resample sample_rate segment,
   start_time, end_time).

(** The whole buffer as one segment, as returned without VAD and when the
    energy gate fails. *)
Definition whole_buffer (pcm_data : bytes) (sample_rate : Z)
    (is_int16 : bool) : option (list Segment) :=
  processed_audio ← process_pcm_data pcm_data sample_rate is_int16;
  d ← calculate_pcm_duration (inr processed_audio) TARGET_SAMPLE_RATE false;
  Some [(processed_audio, 0%Q, d)].

(** [process_with_vad] on [bytes]. The second component counts the frames
    submitted to the VAD primitive. *)
Definition process_with_vad (pcm_data : bytes) (sample_rate : Z)
    (is_int16 use_vad : bool) (hallucinate_threshold : Q) (vad_mode : Z)
    : option (list Segment * Z) :=
  if negb use_vad then
    segs ← whole_buffer pcm_data sample_rate is_int16;
    Some (segs, 0)
  else
    pcm_int16 ← (if is_int16 then frombuffer_int16 pcm_data
                 else map int16_of_f32 <$> frombuffer_float32 pcm_data);
    let vad_processor :=
      vad_default sample_rate VAD_FRAME_SIZE vad_mode hallucinate_threshold in
    if negb (_is_audio_loud_enough vad_processor pcm_int16) then
      segs ← whole_buffer pcm_data sample_rate is_int16;
      Some (segs, 0)
    else
      segs ← process_audio vad_processor pcm_int16
               (process_segment sample_rate);
      Some (segs, len (classify_frames vad_processor pcm_int16
                         (len pcm_int16 / VAD_FRAME_SIZE))).

(** *** Transcription of the segments of a round *)

(** Lines 624-633: the chunks of one segment, shifted by [abs_start]. *)
Definition adjust_chunks (abs_start : Q) (chunks : list Chunk) : list Chunk :=
  map (fun chunk => mk_chunk (text chunk) (start_ts chunk + abs_start)
                      (end_ts chunk + abs_start))
      chunks.

(** Lines 609-637: the loop over [audio_segments]. *)
Fixpoint transcribe_segments (audio_segments : list Segment)
    (processed_length time_offset : Q) (language : string)
    : option (list Chunk) :=
  match audio_segments with
  | [] => Some []
  | (seg_audio, seg_start, seg_end) :: rest =>
      let abs_start := (processed_length + time_offset + seg_start)%Q in
      chunks ← generate seg_audio language;
      more ← transcribe_segments rest processed_length time_offset language;
      Some (adjust_chunks abs_start chunks ++ more)
  end.

(** *** [_pipeline_finalizer] *)

(** Lines 847-855: the chunks of one segment in the finalizer. *)
Definition finalizer_adjust (seg_start seg_end : Q) (chunks : list Chunk)
    : list Chunk :=
  map (fun chunk => mk_chunk (text chunk) (start_ts chunk + seg_start)
                      (end_ts chunk + seg_end))
      chunks.

(** Lines 841-856: [all_chunks]. *)
Fixpoint finalizer_chunks (audio_segments : list Segment) (language : string)
    : option (list Chunk) :=
  match audio_segments with
  | [] => Some []
  | (seg_audio, seg_start, seg_end) :: rest =>
      chunks ← generate seg_audio language;
      more ← finalizer_chunks rest language;
      Some (finalizer_adjust seg_start seg_end chunks ++ more)
  end.

Inductive FinalizerResult :=
| fin_empty_buffer
| fin_success (result : string) (chunks : Z)
| fin_no_speech_detected
| fin_error.

(** Lines 828-856: segmentation of the remaining audio, then the loop. *)
Definition pipeline_chunks (audio_buffer : bytes) (sample_rate : Z)
    (is_int16 : bool) (language : string) (use_vad : bool)
    : option (list Chunk) :=
  '(audio_segments, _) ← process_with_vad audio_buffer sample_rate
                           is_int16 use_vad HALLUCINATE_THRESHOLD 3;
  finalizer_chunks audio_segments (format_language language).

Definition _pipeline_finalizer (audio_buffer : bytes) (sample_rate : Z)
    (is_int16 : bool) (language : string) (use_vad : bool)
    : FinalizerResult :=
  match audio_buffer with
  | [] => fin_empty_buffer
  | _ =>
      let attempt :=
        all_chunks ← pipeline_chunks audio_buffer sample_rate is_int16
                       language use_vad;
        match all_chunks with
        | [] => Some fin_no_speech_detected
        | _ =>
            output ← create_srt_content all_chunks 0;
            Some (fin_success output (len all_chunks))
        end in
      default fin_error attempt
  end.

(** *** [_finalize_processing]: reads the session, changes nothing *)

Definition _finalize_processing (audio_cache : gmap string Session.t)
    (session_id : string) (is_final_task : bool) : option Response :=
  cache ← audio_cache !! session_id;
  let audio_buffer :=
    match Session.overlap_buffer cache with
    | [] => Session.audio_buffer cache
    | overlap_buffer => overlap_buffer ++ Session.audio_buffer cache
    end in
  let language_code :=
    match Session.language cache with
    | Some lang => format_language lang
    | None => "<|zh|>"
    end in
  let from_accumulated :=
    match Session.accumulated_chunks cache with
    | [] => completed
              "" "Session processing completed, no valid transcription results"
    | accumulated_chunks =>
        match create_srt_content accumulated_chunks 0 with
        | Some final_srt => completed final_srt "Processing completed"
        | None => raise_OverflowError
        end
    end in
  Some
    match audio_buffer with
    | [] => from_accumulated
    | _ =>
        match _pipeline_finalizer audio_buffer (Session.sample_rate cache)
                (Session.is_int16 cache) language_code true with
        | fin_success new_srt chunks =>
            if 0 <? chunks then completed new_srt "Processing completed"
            else from_accumulated
        | _ => from_accumulated
        end
    end.

(** *** [_execute_streaming_service] *)

(** What a call did on its way, in order: the buffer handed to
    [process_with_vad], the segments it returned with the number of frames
    classified, the chunks of the round, and the duration committed. *)
Inductive Event :=
| Combined (process_data : bytes)
| Segmented (audio_segments : list Segment) (vad_calls : Z)
| Transcribed (current_chunks : list Chunk)
| Committed (effective_duration : Q).

Record Outcome := mk_outcome {
  cache_after : gmap string Session.t;
  response : Response;
  events : list Event
}.

Definition new_session (params : Params.t) : Session.t :=
  Session.mk [] (Params.sample_rate params) (Params.is_int16 params) 0 []
    [] 0 None.

Definition non_empty {A} (l : list A) : bool :=
  match l with [] => false | _ => true end.

(** Lines 571-606: unless the round is a finish-task, the last segment is
    kept back and its bytes become the new overlap buffer. *)
Definition withhold_last (action : string) (process_data : bytes)
    (audio_segments : list Segment) (session : Session.t)
    : Session.t * list Segment * bool :=
  if String.eqb action "finish-task" then (session, audio_segments, false)
  else
    match last audio_segments with
    | Some (last_segment, last_start, last_end) =>
        let last_segment_start_sample :=
          py_int (last_start * inject_Z (Session.sample_rate session))
          * (if Session.is_int16 session then 2 else 4) in
        let last_segment_bytes :=
          slice_from last_segment_start_sample process_data in
        (Session.set_overlap last_segment_bytes last_start session,
         removelast audio_segments, true)
    | None => (session, audio_segments, false)
    end.

(** Lines 639-650. *)
Definition effective_duration_of (buffer_duration : Q)
    (is_last_segment_incomplete : bool) (session : Session.t) : Q :=
  if is_last_segment_incomplete
     && Qlt_bool 0 (Session.last_segment_start_time session)
  then Session.last_segment_start_time session
  else buffer_duration.

(** Lines 508-705 on the session's own entry: every write of the [try]
    block goes to [self.audio_cache[session_id]]. The result is the entry
    as the call leaves it, the response and the events. *)
Definition session_round (session0 : Session.t) (audio_data : bytes)
    (params : Params.t) (action : string)
    : Session.t * Response * list Event :=
  let session1 :=
    Session.set_audio_buffer (Session.audio_buffer session0 ++ audio_data)
      session0 in
  let sample_rate := Session.sample_rate session1 in
  let is_int16 := Session.is_int16 session1 in
  let processed_length := Session.processed_length session1 in
  let overlap_buffer := Session.overlap_buffer session1 in
  match check_buffer_status (Session.audio_buffer session1) sample_rate
          is_int16 (Params.target_buffer_length params) with
  | None => (session1, error CaughtException, [])
  | Some (buffer_duration, buffer_ready) =>
    if negb buffer_ready && negb (String.eqb action "finish-task") then
      (session1, buffering buffer_duration, [])
    else
      let process_data := overlap_buffer ++ Session.audio_buffer session1 in
      let session2 := Session.set_audio_buffer [] session1 in
      match process_with_vad process_data sample_rate is_int16
              (Params.use_vad params) (Params.hallucinate_threshold params)
              (Params.vad_mode params) with
      | None => (session2, error CaughtException, [Combined process_data])
      | Some (audio_segments, vad_calls) =>
        let '(session3, to_transcribe, is_last_segment_incomplete) :=
          withhold_last action process_data audio_segments session2 in
        let log := [Combined process_data;
                    Segmented audio_segments vad_calls] in
        match transcribe_segments to_transcribe processed_length
                (Params.time_offset params)
                (format_language (Params.language params)) with
        | None => (session3, error CaughtException, log)
        | Some current_chunks =>
          let effective_duration :=
            effective_duration_of buffer_duration
              is_last_segment_incomplete session3 in
          let session4 :=
            Session.set_processed_length
              (Session.processed_length session3 + effective_duration)
              session3 in
          let session5 :=
            if non_empty current_chunks
            then Session.add_chunks (Params.language params) current_chunks
                   session4
            else session4 in
          let log := log ++ [Transcribed current_chunks;
                             Committed effective_duration] in
          if non_empty current_chunks then
            let all_accumulated_chunks :=
              Session.accumulated_chunks session5 in
            match create_srt_content all_accumulated_chunks 0 with
            | Some output_content =>
                (session5,
                 processing output_content (len current_chunks)
                   (len all_accumulated_chunks), log)
            | None => (session5, error CaughtException, log)
            end
          else
            (session5,
             no_speech_detected buffer_duration
               (Session.processed_length session5), log)
        end
      end
  end.

(** Lines 487-705: the [try] block, entered with the audio of the call.
    The entry is created when absent (lines 497-506) and written back. *)
Definition streaming_round (audio_cache : gmap string Session.t)
    (session_id : string) (audio_data : bytes) (params : Params.t)
    (action : string) : Outcome :=
  let session0 := default (new_session params) (audio_cache !! session_id) in
  let '(session, resp, log) :=
    session_round session0 audio_data params action in
  mk_outcome (<[session_id := session]> audio_cache) resp log.

Definition in_cache (audio_cache : gmap string Session.t)
    (session_id : string) : bool :=
  bool_decide (is_Some (audio_cache !! session_id)).

Definition _execute_streaming_service (audio_cache : gmap string Session.t)
    (audio_data : option bytes) (params : Params.t) : Outcome :=
  let session_id := Params.task_id params in
  if String.eqb session_id "" then
    mk_outcome audio_cache
      (raise_ValueError "Must provide task_id parameter to identify session")
      []
  else if Params.clear_cache params && in_cache audio_cache session_id then
    mk_outcome (delete session_id audio_cache) cache_cleared []
  else
    let action := default "" (Params.action params) in
    let no_results :=
      completed
        "" "Session processing completed, no valid transcription results" in
    if String.eqb action "finish-task" && in_cache audio_cache session_id
    then
      mk_outcome audio_cache
        (default no_results
           (_finalize_processing audio_cache session_id true)) []
    else if negb (non_empty (default [] audio_data))
            && in_cache audio_cache session_id
    then
      mk_outcome audio_cache
        (default (completed "" "Session processing completed")
           (_finalize_processing audio_cache session_id false)) []
    else
      match audio_data with
      | None => mk_outcome audio_cache (error FirstCallMustProvideAudio) []
      | Some audio_data =>
          streaming_round audio_cache session_id audio_data params action
      end.

(** *** Sequences of calls *)




End Service.

(** ** [_execute_file_service]: timestamp continuity correction *)

(** Lines 405-415: one iteration on [(time_offset, last_chunk_end)]; the
    entry is [(start, end, text)] of the line added to [output_text]. *)
Definition file_step (st : Q * Q) (chunk : Chunk) : (Q * Q) * (Q * Q * string) :=
  let '(time_offset, last_chunk_end) := st in
  let time_offset :=
    if Qlt_bool (start_ts chunk) (last_chunk_end - (1 # 2))
    then (time_offset + last_chunk_end)%Q
    else time_offset in
  let start := (start_ts chunk + time_offset)%Q in
  let end_ := (end_ts chunk + time_offset)%Q in
  ((time_offset, end_ts chunk), (start, end_, text chunk)).

Fixpoint file_loop (st : Q * Q) (chunks : list Chunk)
    : list (Q * Q * string) :=
  match chunks with
  | [] => []
  | chunk :: rest =>
      let '(st1, entry) := file_step st chunk in
      entry :: file_loop st1 rest
  end.

(** The timestamped lines of [_execute_file_service] for the chunks the
    engine returned for the whole file. *)
Definition file_service_lines (chunks : list Chunk) : list (Q * Q * string) :=
  file_loop (0%Q, 0%Q) chunks.


(** The bytes kept back for a withheld segment starting at [last_start]
    (lines 588-594). *)
Definition withheld_bytes (s : Session.t) (last_start : Q)
    (process_data : bytes) : bytes :=
  slice_from
    (py_int (last_start * inject_Z (Session.sample_rate s))
     * (if Session.is_int16 s then 2 else 4))
    process_data.

(** ** Shapes of timelines *)

Definition line_start (line : Q * Q * string) : Q := fst (fst line).
Definition line_end (line : Q * Q * string) : Q := snd (fst line).

(** Lines whose starts do not decrease from [lo] on, each ending at or
    after its start. *)
Fixpoint timeline_from (lo : Q) (lines : list (Q * Q * string)) : Prop :=
  match lines with
  | [] => True
  | line :: rest =>
      (lo <= line_start line)%Q /\ (line_start line <= line_end line)%Q
      /\ timeline_from (line_start line) rest
  end.

(** Chunks as an engine that works in passes returns them, after a chunk
    from [prev_start] to [prev_end]: relative times are not negative, a
    chunk ends at or after its start, and it starts at or after the start
    of the chunk before it unless it jumps back by more than 0.5 s behind
    that chunk's end (a new pass). *)
Fixpoint in_passes (prev_start prev_end : Q) (chunks : list Chunk) : Prop :=
  match chunks with
  | [] => True
  | chunk :: rest =>
      (0 <= start_ts chunk)%Q /\ (start_ts chunk <= end_ts chunk)%Q
      /\ ((prev_start <= start_ts chunk)%Q
          \/ (start_ts chunk < prev_end - (1 # 2))%Q)
      /\ in_passes (start_ts chunk) (end_ts chunk) rest
  end.

(** ** Shapes of segment lists *)

(** Segments in frame indices that follow one another from [lo] on: each
    starts at or after the end of the one before, ends after its start, and
    spans at least [m] frames. *)
Fixpoint chain (m lo : Z) (l : list (Z * Z)) : Prop :=
  match l with
  | [] => True
  | (a, b) :: r => lo <= a /\ a < b /\ m <= b - a /\ chain m b r
  end.

Fixpoint last_end (lo : Z) (l : list (Z * Z)) : Z :=
  match l with
  | [] => lo
  | (_, b) :: r => last_end b r
  end.

(** Every segment has start < end, and an earlier segment ends at or before
    the start of a later one. *)
Definition ordered_disjoint (ts : list (Q * Q)) : Prop :=
  (forall p, In p ts -> (fst p < snd p)%Q)
  /\ (forall (i j : nat) p q, (i < j)%nat -> ts !! i = Some p ->
       ts !! j = Some q -> (snd p <= fst q)%Q).

(** What the automaton of [segment_audio] maintains before frame [i], where
    [lo] is the end of the last segment saved (0 if none). *)
Definition vad_inv (self : EnhancedVadProcessor) (lo : Z) (st : VadState)
    (i : Z) : Prop :=
  0 <= lo /\ 0 <= i
  /\ if is_speech st
     then lo <= speech_start_frame st
          /\ 0 <= silence_frames st
          /\ speech_start_frame st < i - silence_frames st
          /\ speech_frame_count st
             <= i - silence_frames st - speech_start_frame st
     else lo <= Z.max 0 (i - speech_pad_frames self).

(** ** Inputs of the scenarios *)


(** Streaming parameters of Scenario A: int16 mono at 16 kHz, VAD on (as
    [execute] sets it), threshold 100, target buffer length 3.0. *)
Definition scenario_A_params (session_id language : string) (vad_mode : Z)
    (time_offset : Q) : Params.t :=
  Params.mk language 16000 true true 100 vad_mode time_offset session_id
    false 3 None.

(** A cache-clear request for a session id (no finish-task action). *)
Definition clear_params (session_id : string) : Params.t :=
  Params.mk "zh" 16000 true true 100 3 0 session_id true 3 None.

(** The parameters of Scenario A with a target of 0: every call runs a
    round. *)
Definition eager_params (session_id : string) : Params.t :=
  Params.mk "zh" 16000 true true 100 3 0 session_id false 0 None.

(** A processor with frames of two samples, one frame of padding, and two
    silent frames to close a segment; and one whose padding (two frames)
    exceeds the silence that closes a segment (one frame). *)
Definition small_vad : EnhancedVadProcessor := mk_vad 16000 2 3 1 2 1 100.
Definition wide_padding_vad : EnhancedVadProcessor :=
  mk_vad 16000 1 3 1 1 2 100.

(** The processor that [process_with_vad] builds with the default
    parameters of the service. *)
Definition default_vad : EnhancedVadProcessor :=
  vad_default TARGET_SAMPLE_RATE VAD_FRAME_SIZE 3 HALLUCINATE_THRESHOLD.

(** [(start_time, end_time)] of each segment. *)
Definition segment_times {A} (segs : list (A * Q * Q)) : list (Q * Q) :=
  map (fun seg => (snd (fst seg), snd seg)) segs.

(** A stand-in for the collaborators, used to run the code on concrete
    inputs: samples are rationals, a frame is speech when its first sample
    is not 0, and the engine returns one chunk spanning the segment. *)
Definition demo_is_speech (mode : Z) (frame : bytes) (sample_rate : Z)
    : option bool :=
  match int16_pairs frame with
  | x :: _ => Some (negb (x =? 0))
  | [] => None
  end.

Definition demo_generate (audio : list Q) (language : string)
    : option (list Chunk) :=
  Some [mk_chunk "speech" 0 (inject_Z (len audio) / 16000)].

Definition demo : Collaborators := {|
  F32 := Q;
  f32_frombuffer := fun b => map (fun x => inject_Z x / 32768)%Q (int16_pairs b);
  f32_of_int16 := fun x => (inject_Z x / 32768)%Q;
  int16_of_f32 := fun q => wrap_int16 (py_int (q * 32768));
  resample := fun _ a => a;
  vad_is_speech := demo_is_speech;
  generate := demo_generate
|}.

(** A frame of 480 samples of amplitude 1000, and a silent one. *)
Definition loud_frame : list Z := replicate 480 1000.
Definition quiet_frame : list Z := replicate 480 0.
Definition frames_of (pattern : list bool) : list Z :=
  flat_map (fun b : bool => if b then loud_frame else quiet_frame) pattern.

(** 14 silent frames followed by 8 frames of speech (0.66 s), and 20 silent
    frames (0.6 s), as int16 bytes; parameters with a 0.5 s target. *)
Definition speech_after_silence : bytes :=
  tobytes_int16 (frames_of (replicate 14 false ++ replicate 8 true)).
Definition continuity_params : Params.t :=
  Params.mk "en" 16000 true true 100 3 0 "session-1" false (1 # 2) None.

(** ** Inputs for further properties *)

(** A store holding one session with one buffered sample, as a first call
    on a new session leaves it. *)
Definition one_sample_store : gmap string Session.t :=
  <["session-1" := Session.mk [Byte.x00; Byte.x00] 16000 true 0 [] [] 0 None]> ∅.

(** The same store with a second session. *)
Definition two_session_store : gmap string Session.t :=
  <["session-2" := Session.mk [] 8000 false 0 [] [] 0 None]> one_sample_store.

(** Parameters that declare float32 audio at 8 kHz for ["session-1"]. *)
Definition other_format_params : Params.t :=
  Params.mk "zh" 8000 false true 100 3 0 "session-1" false 3 None.

(** Parameters with the finish-task action. *)
Definition finish_params : Params.t :=
  Params.mk "zh" 16000 true true 100 3 0 "session-1" false 3
    (Some "finish-task").


Definition vad_down : Collaborators := {|
  F32 := Q;
  f32_frombuffer := fun b => map (fun x => inject_Z x / 32768)%Q (int16_pairs b);
  f32_of_int16 := fun x => (inject_Z x / 32768)%Q;
  int16_of_f32 := fun q => wrap_int16 (py_int (q * 32768));
  resample := fun _ a => a;
  vad_is_speech := fun _ _ _ => None;
  generate := demo_generate
|}.


(** Chunks of a single engine pass, after a chunk ending at [prev_end]: no
    chunk starts more than 0.5 s before the end of the chunk before it. *)
Fixpoint single_pass (prev_end : Q) (chunks : list Chunk) : Prop :=
  match chunks with
  | [] => True
  | chunk :: rest =>
      (prev_end - (1 # 2) <= start_ts chunk)%Q /\ single_pass (end_ts chunk) rest
  end.

(** ** Properties *)

Lemma Qlt_bool_iff (a b : Q) : Qlt_bool a b = true <-> (a < b)%Q.
Proof.
  unfold Qlt_bool. rewrite negb_true_iff.
  destruct (Qle_bool b a) eqn:E.
  - apply Qle_bool_iff in E. split; [discriminate | intros H; exfalso; lra].
  - split; [intros _ | reflexivity].
    destruct (Qlt_le_dec a b) as [H | H]; [exact H |].
    apply Qle_bool_iff in H. congruence.
Qed.

Lemma eqb_finish_task (action : option string) :
  action <> Some "finish-task" ->
  String.eqb (default "" action) "finish-task" = false.
Proof.
  intros H. apply String.eqb_neq. destruct action as [a |]; simpl.
  - intros ->. congruence.
  - discriminate.
Qed.

(** *** The frame automaton *)

Lemma vad_step_inv (self : EnhancedVadProcessor) (lo : Z) (st : VadState)
    (i : Z) (speech : bool) :
  0 <= speech_pad_frames self <= min_silence_frames self ->
  vad_inv self lo st i ->
  match vad_step self st i speech with
  | (st', Some (a, e)) =>
      lo <= a /\ a < e /\ min_speech_frames self <= e - a
      /\ vad_inv self e st' (i + 1)
  | (st', None) => vad_inv self lo st' (i + 1)
  end.
Proof.
  intros Hpad (Hlo & Hi & H). unfold vad_step, vad_inv in *.
  destruct st as [sp sil cnt start]; simpl in *.
  destruct sp, speech; simpl;
    repeat match goal with
           | |- context [?x <=? ?y] =>
               let E := fresh "E" in
               destruct (Z.leb_spec x y) as [E | E]; simpl
           end; lia.
Qed.

Lemma vad_loop_inv (self : EnhancedVadProcessor) (flags : list bool) :
  0 <= speech_pad_frames self <= min_silence_frames self ->
  forall (st : VadState) (i lo : Z),
    vad_inv self lo st i ->
    chain (min_speech_frames self) lo (snd (vad_loop self st i flags))
    /\ vad_inv self (last_end lo (snd (vad_loop self st i flags)))
         (fst (vad_loop self st i flags)) (i + len flags).
Proof.
  intros Hpad. induction flags as [| b r IH]; intros st i lo Hinv.
  - simpl. unfold len. simpl. rewrite Z.add_0_r. auto.
  - cbn [vad_loop]. pose proof (vad_step_inv self lo st i b Hpad Hinv) as Hs.
    destruct (vad_step self st i b) as [st1 out].
    replace (i + len (b :: r)) with (i + 1 + len r)
      by (unfold len; simpl length; lia).
    destruct out as [[a e] |].
    + destruct Hs as (H1 & H2 & H3 & Hinv1).
      destruct (IH st1 (i + 1) e Hinv1) as [Hc Hf].
      destruct (vad_loop self st1 (i + 1) r) as [st2 outs]. simpl in *. auto.
    + destruct (IH st1 (i + 1) lo Hs) as [Hc Hf].
      destruct (vad_loop self st1 (i + 1) r) as [st2 outs]. simpl in *. auto.
Qed.

Lemma chain_app (m lo : Z) (l : list (Z * Z)) (a b : Z) :
  chain m lo l -> last_end lo l <= a -> a < b -> m <= b - a ->
  chain m lo (l ++ [(a, b)]).
Proof.
  revert lo. induction l as [| [x y] r IH]; intros lo Hc Hl Hab Hm; simpl in *.
  - auto.
  - destruct Hc as (H1 & H2 & H3 & H4). auto.
Qed.

(** The segments found in a buffer of [frame_count] frames follow one
    another and span at least [min_speech_frames] frames each. *)
Lemma speech_segments_indices_chain (self : EnhancedVadProcessor)
    (flags : list bool) :
  0 <= speech_pad_frames self <= min_silence_frames self ->
  chain (min_speech_frames self) 0
    (speech_segments_indices self (len flags) flags).
Proof.
  intros Hpad. unfold speech_segments_indices.
  assert (Hinit : vad_inv self 0 reset_state 0).
  { unfold vad_inv, reset_state. simpl. lia. }
  destruct (vad_loop_inv self flags Hpad reset_state 0 0 Hinit) as [Hc Hf].
  destruct (vad_loop self reset_state 0 flags) as [st idx]. simpl in *.
  destruct (is_speech st) eqn:Hsp; [| exact Hc].
  destruct (Z.leb_spec (min_speech_frames self) (speech_frame_count st));
    [| exact Hc].
  simpl. unfold vad_inv in Hf. rewrite Hsp in Hf.
  apply chain_app; [exact Hc | lia ..].
Qed.

Lemma chain_lower (m lo : Z) (l : list (Z * Z)) :
  chain m lo l -> forall p, In p l -> lo <= fst p /\ fst p < snd p.
Proof.
  revert lo. induction l as [| [a b] r IH]; intros lo Hc p Hp; [destruct Hp |].
  destruct Hc as (H1 & H2 & H3 & H4). destruct Hp as [<- | Hp].
  - simpl. lia.
  - destruct (IH b H4 p Hp). lia.
Qed.

Lemma chain_pairwise (m lo : Z) (l : list (Z * Z)) :
  chain m lo l ->
  forall (i j : nat) p q, (i < j)%nat -> l !! i = Some p -> l !! j = Some q ->
    snd p <= fst q.
Proof.
  revert lo. induction l as [| [a b] r IH]; intros lo Hc i j p q Hij Hp Hq.
  - destruct i; discriminate.
  - destruct Hc as (H1 & H2 & H3 & H4).
    destruct j as [| j]; [lia |]. simpl in Hq.
    destruct i as [| i]; simpl in Hp.
    + inversion Hp; subst. simpl.
      apply (chain_lower m b r H4 q). eapply list_elem_of_In.
      eapply list_elem_of_lookup_2. exact Hq.
    + apply (IH b H4 i j p q); [lia | assumption ..].
Qed.

Lemma frame_time_lt (a b : Z) : a < b -> (frame_time a < frame_time b)%Q.
Proof.
  intros H. unfold frame_time, FRAME_DURATION_MS.
  apply Qmult_lt_compat_r; [reflexivity |].
  rewrite <- Zlt_Qlt. lia.
Qed.

Lemma frame_time_le (a b : Z) : a <= b -> (frame_time a <= frame_time b)%Q.
Proof.
  intros H. unfold frame_time, FRAME_DURATION_MS.
  apply Qmult_le_compat_r; [| discriminate].
  rewrite <- Zle_Qle. lia.
Qed.

Lemma chain_ordered_disjoint (m lo : Z) (l : list (Z * Z)) :
  chain m lo l -> ordered_disjoint (map frame_times l).
Proof.
  intros Hc. split.
  - intros p Hp. apply in_map_iff in Hp as ([a b] & <- & Hin).
    simpl. apply frame_time_lt. apply (chain_lower m lo l Hc (a, b) Hin).
  - intros i j p q Hij Hp Hq. rewrite list_lookup_fmap in Hp, Hq.
    destruct (l !! i) as [[a b] |] eqn:Ei; [| discriminate].
    destruct (l !! j) as [[c d] |] eqn:Ej; [| discriminate].
    inversion Hp; inversion Hq; subst. simpl. apply frame_time_le.
    apply (chain_pairwise m lo l Hc i j (a, b) (c, d) Hij Ei Ej).
Qed.

Section Facts.

Context `{C : Collaborators}.










(** *** What a call can do to a session entry *)

(** The events of a call on the session's entry, and the overlap buffer it
    leaves. *)
Lemma session_round_inv (s : Session.t) (audio_data : bytes)
    (params : Params.t) (action : string) s' resp log :
  session_round s audio_data params action = (s', resp, log) ->
  let process_data :=
    Session.overlap_buffer s ++ Session.audio_buffer s ++ audio_data in
  Session.sample_rate s' = Session.sample_rate s
  /\ Session.is_int16 s' = Session.is_int16 s
  /\ ((log = [] \/ log = [Combined process_data])
        /\ Session.overlap_buffer s' = Session.overlap_buffer s
      \/ exists audio_segments vad_calls tail,
           log = Combined process_data
                 :: Segmented audio_segments vad_calls :: tail
           /\ (String.eqb action "finish-task" = false ->
               forall seg last_start last_end,
                 last audio_segments = Some (seg, last_start, last_end) ->
                 Session.overlap_buffer s'
                 = withheld_bytes s last_start process_data)).
Proof.
  intros H pd. unfold session_round in H. cbn [Session.audio_buffer
    Session.sample_rate Session.is_int16 Session.overlap_buffer
    Session.processed_length Session.set_audio_buffer] in H.
  destruct (check_buffer_status _ _ _ _) as [[d ready] |];
    [| inversion H; subst; simpl; auto 10].
  destruct (negb ready && negb (String.eqb action "finish-task"));
    [inversion H; subst; simpl; auto 10 |].
  fold pd in H.
  destruct (process_with_vad _ _ _ _ _ _) as [[segs calls] |];
    [| inversion H; subst; simpl; auto 10].
  destruct (withhold_last action pd segs _) as [[s3 to_transcribe] inc] eqn:W.
  assert (Hs3 : Session.sample_rate s3 = Session.sample_rate s
                /\ Session.is_int16 s3 = Session.is_int16 s
                /\ (String.eqb action "finish-task" = false ->
                    forall seg last_start last_end,
                      last segs = Some (seg, last_start, last_end) ->
                      Session.overlap_buffer s3
                      = withheld_bytes s last_start pd)).
  { unfold withhold_last in W.
    destruct (String.eqb action "finish-task").
    - inversion W; subst; simpl. repeat split; discriminate.
    - destruct (last segs) as [[[seg ls] le] |].
      + inversion W; subst; simpl. repeat split.
        intros _ seg' ls' le' E. inversion E; subst. reflexivity.
      + inversion W; subst; simpl. repeat split. discriminate. }
  destruct Hs3 as (Hsr & Hint & Hov).
  destruct (transcribe_segments _ _ _ _) as [chunks |].
  - destruct (non_empty chunks);
      [destruct (create_srt_content _ 0) |];
      inversion H; subst; simpl; (split; [exact Hsr |]);
      (split; [exact Hint |]); right; eexists _, _, _;
      (split; [reflexivity | exact Hov]).
  - inversion H; subst. split; [exact Hsr |]. split; [exact Hint |].
    right. eexists _, _, _. split; [reflexivity | exact Hov].
Qed.

(** The outcomes of [_execute_streaming_service]: a call that leaves the
    store as it is, a cache clear, or the [try] block. *)
Lemma execute_cases (audio_cache : gmap string Session.t)
    (audio_data : option bytes) (params : Params.t) :
  let o := _execute_streaming_service audio_cache audio_data params in
  let session_id := Params.task_id params in
  (events o = [] /\ cache_after o = audio_cache
   /\ response o <> cache_cleared)
  \/ (events o = [] /\ response o = cache_cleared
      /\ cache_after o = delete session_id audio_cache)
  \/ (exists audio,
        audio_data = Some audio
        /\ o = streaming_round audio_cache session_id audio params
                 (default "" (Params.action params))).
Proof.
  unfold _execute_streaming_service.
  destruct (String.eqb _ ""); [left; simpl; repeat split; discriminate |].
  destruct (Params.clear_cache params && in_cache _ _);
    [right; left; repeat split; reflexivity |].
  destruct (String.eqb _ "finish-task" && in_cache _ _) eqn:Hf.
  { left. simpl. repeat split.
    apply andb_true_iff in Hf as [_ Hin]. unfold in_cache in Hin.
    apply bool_decide_eq_true in Hin as [s Hs].
    unfold _finalize_processing. rewrite Hs. simpl.
    repeat (match goal with
            | |- context [match ?x with _ => _ end] => destruct x
            end; simpl; try discriminate). }
  destruct (negb (non_empty (default [] audio_data)) && in_cache _ _) eqn:He.
  { left. simpl. repeat split.
    apply andb_true_iff in He as [_ Hin]. unfold in_cache in Hin.
    apply bool_decide_eq_true in Hin as [s Hs].
    unfold _finalize_processing. rewrite Hs. simpl.
    repeat (match goal with
            | |- context [match ?x with _ => _ end] => destruct x
            end; simpl; try discriminate). }
  destruct audio_data as [audio |].
  - right; right. exists audio. split; reflexivity.
  - left. simpl. repeat split. discriminate.
Qed.



(** A round that segmented its buffer and is not a finish-task stores the
    bytes of the withheld segment as the session's overlap buffer. *)
Lemma round_sets_overlap (audio_cache : gmap string Session.t)
    (audio_data : option bytes) (params : Params.t) process_data
    audio_segments vad_calls tail seg last_start last_end :
  let o := _execute_streaming_service audio_cache audio_data params in
  events o = Combined process_data :: Segmented audio_segments vad_calls
             :: tail ->
  Params.action params <> Some "finish-task" ->
  last audio_segments = Some (seg, last_start, last_end) ->
  exists s, cache_after o !! Params.task_id params = Some s
            /\ Session.overlap_buffer s
               = withheld_bytes s last_start process_data.
Proof.
  intros o Hev Hact Hlast.
  pose proof (execute_cases audio_cache audio_data params) as Hcases.
  cbv zeta in Hcases. fold o in Hcases.
  destruct Hcases as [(He & _) | [(He & _) | (audio & -> & Ho)]];
    try congruence.
  unfold streaming_round in Ho.
  destruct (session_round _ audio params _) as [[s1 r1] l1] eqn:Hround.
  rewrite Ho in Hev |- *. cbn [cache_after events] in Hev |- *.
  exists s1. rewrite lookup_insert_eq. split; [reflexivity |].
  apply session_round_inv in Hround.
  destruct Hround as (Hsr & Hint & [[[H | H] _] | (segs & n & tl & H & Hov)]);
    try congruence.
  rewrite H in Hev. inversion Hev; subst.
  rewrite (Hov (eqb_finish_task _ Hact) _ _ _ Hlast).
  unfold withheld_bytes. rewrite Hsr, Hint. reflexivity.
Qed.



(** *** Malformed lengths and cache clears *)




(** *** Segments of [segment_audio] *)

Lemma classify_frames_len (self : EnhancedVadProcessor)
    (audio_data : list Z) (frame_count : Z) :
  len (classify_frames self audio_data frame_count) = Z.max 0 frame_count.
Proof.
  unfold classify_frames, len. rewrite length_map, length_seqZ. lia.
Qed.

(** C6, as the code has it. For a processor whose padding is not negative
    and not longer than the silence that closes a segment (the defaults
    are 13 and 16 frames), a positive sample rate and a buffer that is
    not empty, the segments returned by [segment_audio] have
    start < end each, and an earlier one ends at or before the start of a
    later one. *)
Theorem segment_audio_ordered_disjoint (self : EnhancedVadProcessor)
    (audio_data : list Z) (segments : list (list F32))
    (timestamps : list (Q * Q)) :
  0 <= speech_pad_frames self <= min_silence_frames self ->
  0 < sample_rate self ->
  audio_data <> [] ->
  segment_audio self audio_data true = Some (segments, timestamps) ->
  ordered_disjoint timestamps.
Proof.
  intros Hpad Hsr Hne. unfold segment_audio.
  destruct (vad_frame_size self =? 0); [discriminate |].
  set (fc := len audio_data / vad_frame_size self).
  set (flags := classify_frames self audio_data fc).
  assert (Hc : chain (min_speech_frames self) 0
                 (speech_segments_indices self fc flags)).
  { pose proof (classify_frames_len self audio_data fc) as Hl. fold flags in Hl.
    destruct (Z.lt_ge_cases fc 0) as [Hneg | Hpos].
    - assert (flags = []) as ->.
      { destruct flags; [reflexivity |]. unfold len in Hl. simpl in Hl. lia. }
      exact I.
    - replace fc with (len flags) by lia.
      apply speech_segments_indices_chain. exact Hpad. }
  destruct (speech_segments_indices self fc flags) as [| p idx] eqn:Hidx.
  - simpl. unfold py_truediv.
    destruct (Qeq_bool _ 0); [discriminate |]. simpl. intros H.
    inversion H; subst. split.
    + intros p [<- | []]. simpl.
      apply Qlt_shift_div_l; [rewrite <- (Zlt_Qlt 0); exact Hsr |].
      rewrite Qmult_0_l. rewrite <- (Zlt_Qlt 0).
      destruct audio_data; [congruence | unfold len; simpl; lia].
    + intros i j p q Hij Hp Hq. destruct i; [| discriminate].
      destruct j; [lia | discriminate].
  - cbn [map]. intros H. inversion H; subst.
    apply (chain_ordered_disjoint (min_speech_frames self) 0 (p :: idx) Hc).
Qed.

(** *** Timestamps of transcript chunks *)

(** In a streaming round, every chunk is a chunk of the engine for one of
    the segments, shifted by the processed length before the round, the
    configured time offset and the start of the segment: the start by
    [processed_length + time_offset + seg_start], and the end by the
    same amount. *)
Lemma transcribe_segments_timestamps (audio_segments : list Segment)
    (processed_length time_offset : Q) (language : string)
    (current_chunks : list Chunk) :
  transcribe_segments audio_segments processed_length time_offset language
  = Some current_chunks ->
  forall adjusted, In adjusted current_chunks ->
    exists seg_audio seg_start seg_end chunks chunk,
      In (seg_audio, seg_start, seg_end) audio_segments
      /\ generate seg_audio language = Some chunks
      /\ In chunk chunks
      /\ text adjusted = text chunk
      /\ start_ts adjusted
         = (start_ts chunk + (processed_length + time_offset + seg_start))%Q
      /\ end_ts adjusted
         = (end_ts chunk + (processed_length + time_offset + seg_start))%Q.
Proof.
  revert current_chunks.
  induction audio_segments as [| [[seg_audio seg_start] seg_end] rest IH];
    intros out H adjusted Hin; simpl in H.
  - inversion H; subst. destruct Hin.
  - destruct (generate seg_audio language) as [chunks |] eqn:Hg;
      [| discriminate]. simpl in H.
    destruct (transcribe_segments rest _ _ _) as [more |]; [| discriminate].
    simpl in H. inversion H; subst. apply in_app_or in Hin as [Hin | Hin].
    + unfold adjust_chunks in Hin.
      apply in_map_iff in Hin as (chunk & <- & Hc).
      exists seg_audio, seg_start, seg_end, chunks, chunk. simpl. auto 10.
    + destruct (IH more eq_refl adjusted Hin)
        as (a & s0 & e0 & cs & c & Hseg & Hrest).
      exists a, s0, e0, cs, c. simpl. auto.
Qed.

(** In [_pipeline_finalizer], every chunk is a chunk of the engine for one
    of the segments, its start shifted by the start of the segment and its
    end shifted by the end of the segment. *)
Lemma finalizer_chunks_timestamps (audio_segments : list Segment)
    (language : string) (all_chunks : list Chunk) :
  finalizer_chunks audio_segments language = Some all_chunks ->
  forall adjusted, In adjusted all_chunks ->
    exists seg_audio seg_start seg_end chunks chunk,
      In (seg_audio, seg_start, seg_end) audio_segments
      /\ generate seg_audio language = Some chunks
      /\ In chunk chunks
      /\ text adjusted = text chunk
      /\ start_ts adjusted = (start_ts chunk + seg_start)%Q
      /\ end_ts adjusted = (end_ts chunk + seg_end)%Q.
Proof.
  revert all_chunks.
  induction audio_segments as [| [[seg_audio seg_start] seg_end] rest IH];
    intros out H adjusted Hin; simpl in H.
  - inversion H; subst. destruct Hin.
  - destruct (generate seg_audio language) as [chunks |] eqn:Hg;
      [| discriminate]. simpl in H.
    destruct (finalizer_chunks rest _) as [more |]; [| discriminate].
    simpl in H. inversion H; subst. apply in_app_or in Hin as [Hin | Hin].
    + unfold finalizer_adjust in Hin.
      apply in_map_iff in Hin as (chunk & <- & Hc).
      exists seg_audio, seg_start, seg_end, chunks, chunk. simpl. auto 10.
    + destruct (IH more eq_refl adjusted Hin)
        as (a & s0 & e0 & cs & c & Hseg & Hrest).
      exists a, s0, e0, cs, c. simpl. auto.
Qed.

End Facts.

(** ** The theorems at concrete inputs *)







(** C6, counterexample. With a padding of two frames and a segment closed
    by one silent frame, the frames speech, silence, speech, silence give
    two segments that both start at 0: the second starts before the first
    ends. With the default processor, the empty buffer gives the fallback
    segment from 0 to 0, whose start is not before its end. *)
Lemma padding_wider_than_silence_overlaps :
  (snd <$> segment_audio (C:=demo) wide_padding_vad [1000; 0; 1000; 0] true
   = Some [(0 # 1000, 30 # 1000); (0 # 1000, 90 # 1000)]
   /\ ~ ordered_disjoint [(0 # 1000, 30 # 1000); (0 # 1000, 90 # 1000)])
  /\ (snd <$> segment_audio (C:=demo) default_vad [] true
      = Some [(0%Q, 0 # 16000)]
      /\ ~ ordered_disjoint [(0%Q, 0 # 16000)]).
Proof.
  split; (split; [vm_compute; reflexivity |]).
  - intros [_ H].
    specialize (H 0%nat 1%nat _ _ (Nat.lt_0_succ 0) eq_refl eq_refl).
    vm_compute in H. apply H. reflexivity.
  - intros [H _]. specialize (H _ (or_introl eq_refl)).
    vm_compute in H. discriminate.
Qed.

Lemma segment_audio_ordered_disjoint_witness :
  ordered_disjoint (map frame_times [(0, 1); (3, 5)]).
Proof.
  apply (segment_audio_ordered_disjoint (C:=demo) small_vad
           [5; 5; 0; 0; 0; 0; 0; 0; 7; 7; 0; 0; 0; 0]
           [[5 # 32768; 5 # 32768];
            [0 # 32768; 0 # 32768; 7 # 32768; 7 # 32768]]);
    [vm_compute; split; discriminate
    | reflexivity
    | discriminate
    | vm_compute; reflexivity].
Defined.

(** C7 (the code does not keep it). With the default processor, eight
    frames of speech at the start of a buffer followed by sixteen silent
    frames give one segment from 0.00 s to 0.24 s. It is not the
    whole-buffer fallback (the buffer lasts 0.72 s), and it is shorter than
    [min_speech_duration_ms] = 250 ms: [min_speech_frames] is
    [int(250 / 30)] = 8 frames of 30 ms. *)
Theorem eight_frame_segment_below_min_duration :
  let audio := frames_of (replicate 8 true ++ replicate 16 false) in
  min_speech_frames default_vad = 8
  /\ speech_segments_indices default_vad 24
       (replicate 8 true ++ replicate 16 false) = [(0, 8)]
  /\ snd <$> segment_audio (C:=demo) default_vad audio true
     = Some [(0 # 1000, 240 # 1000)]
  /\ segment_times ∘ fst
       <$> process_with_vad (C:=demo) (tobytes_int16 audio) 16000 true true
             100 3
     = Some [(0 # 1000, 240 # 1000)]
  /\ ((240 # 1000) - (0 # 1000) < 250 # 1000)%Q.
Proof.
  intros audio. split; [reflexivity |].
  split; [vm_compute; reflexivity |].
  split; [vm_compute; reflexivity |].
  split; [vm_compute; reflexivity |].
  reflexivity.
Qed.

(** C8 (the finalize path does not keep it). A new session receives
    [speech_after_silence]; the round keeps back the segment that starts at
    0.03 s, so [processed_length] is 0.03 and the overlap buffer holds the
    remaining 0.63 s. A call without audio then finalizes: the remaining
    audio is one segment from 0.00 s to 0.63 s, for which the engine returns
    one chunk from 0.00 s to 0.63 s. The chunk is reported from 0.00 s to
    1.26 s: its start lacks the processed length (the formula of the
    streaming round gives 0.03 s), and its end is shifted by the end of the
    segment instead of its start (the formula gives 0.66 s). *)
Theorem finalize_chunk_timestamps_diverge :
  let o1 := _execute_streaming_service (C:=demo) ∅ (Some speech_after_silence)
              continuity_params in
  let o2 := _execute_streaming_service (C:=demo) (cache_after o1) None
              continuity_params in
  let remaining := drop 960 speech_after_silence in
  let audio := map (f32_of_int16 (Collaborators:=demo))
                 (slice 0 10080 (int16_pairs remaining)) in
  Session.processed_length <$> cache_after o1 !! "session-1"
    = Some (30 # 1000)
  /\ Session.overlap_buffer <$> cache_after o1 !! "session-1" = Some remaining
  /\ Session.audio_buffer <$> cache_after o1 !! "session-1" = Some []
  /\ Params.time_offset continuity_params = 0%Q
  /\ fst <$> process_with_vad (C:=demo) remaining 16000 true true
               HALLUCINATE_THRESHOLD 3
     = Some [(audio, 0 # 1000, 630 # 1000)]
  /\ generate (Collaborators:=demo) audio "<|zh|>"
     = Some [mk_chunk "speech" 0 (10080 # 16000)]
  /\ pipeline_chunks (C:=demo) remaining 16000 true "<|zh|>" true
     = Some [mk_chunk "speech" (0 # 1000) (20160000 # 16000000)]
  /\ ~ (0 # 1000 == (30 # 1000) + 0 + (0 # 1000) + 0)
  /\ ~ (20160000 # 16000000 == (30 # 1000) + 0 + (0 # 1000) + (10080 # 16000))
  /\ response o2
     = completed ("1" +:+ NL +:+ "00:00:00,000 --> 00:00:01,260" +:+ NL
                  +:+ "speech" +:+ NL)
         "Processing completed".
Proof.
  intros o1 o2 remaining audio.
  split; [vm_compute; reflexivity |].
  split.
  { vm_cast_no_check
      (@eq_refl (option bytes)
         (Session.overlap_buffer <$> cache_after o1 !! "session-1")). }
  split; [vm_compute; reflexivity |].
  split; [reflexivity |].
  split.
  { vm_cast_no_check
      (@eq_refl (option (list (Segment (C:=demo))))
         (fst <$> process_with_vad (C:=demo) remaining 16000 true true
                    HALLUCINATE_THRESHOLD 3)). }
  split; [vm_compute; reflexivity |].
  split; [vm_compute; reflexivity |].
  split; [vm_compute; discriminate |].
  split; [vm_compute; discriminate |].
  vm_compute; reflexivity.
Qed.

(** *** Timestamp continuity of the file service *)

Lemma file_loop_timeline (chunks : list Chunk) :
  forall (time_offset prev_start prev_end : Q),
    (prev_start <= prev_end)%Q ->
    in_passes prev_start prev_end chunks ->
    timeline_from (prev_start + time_offset)
      (file_loop (time_offset, prev_end) chunks).
Proof.
  induction chunks as [| c rest IH]; intros off ps pe Hpe Hp; [exact I |].
  destruct Hp as (H0 & Hse & Hord & Hrest). cbn [file_loop file_step].
  destruct (Qlt_bool (start_ts c) (pe - (1 # 2))) eqn:Hj;
    cbn [timeline_from line_start line_end fst snd].
  - split; [lra |]. split; [lra |]. apply IH; assumption.
  - assert (Hn : ~ (start_ts c < pe - (1 # 2))%Q).
    { intros Hlt. apply Qlt_bool_iff in Hlt. congruence. }
    split; [destruct Hord; [lra | contradiction] |].
    split; [lra |]. apply IH; assumption.
Qed.

(** C9, as the code has it. When a chunk starts more than 0.5 s before the
    relative end of the chunk before it, the accumulating offset grows by
    that relative end, which makes it the absolute end reported for the
    chunk before; a chunk whose relative start is not negative then starts
    at or after that absolute end. And for chunks as an engine working in
    passes returns them, the starts of the output lines do not decrease and
    every line ends at or after its start. *)
Theorem jump_offset_and_monotone_timeline (state : Q * Q) (prev chunk : Chunk)
    (chunks : list Chunk) :
  let r1 := file_step state prev in
  let r2 := file_step (fst r1) chunk in
  ((start_ts chunk < end_ts prev - (1 # 2))%Q ->
     fst (fst r2) == fst (fst r1) + end_ts prev
     /\ fst (fst r2) == line_end (snd r1)
     /\ line_start (snd r2) == start_ts chunk + line_end (snd r1)
     /\ ((0 <= start_ts chunk)%Q ->
         (line_end (snd r1) <= line_start (snd r2))%Q))
  /\ (in_passes 0 0 chunks -> timeline_from 0 (file_service_lines chunks)).
Proof.
  intros r1 r2. split.
  - intros Hjump. subst r1 r2. destruct state as [off last].
    cbn [file_step fst snd line_end line_start].
    apply Qlt_bool_iff in Hjump. rewrite Hjump.
    cbn [fst snd]. repeat split; try intros ?; lra.
  - intros Hp. unfold file_service_lines.
    pose proof (file_loop_timeline chunks 0 0 0 (Qle_refl 0) Hp) as H.
    destruct (file_loop (0%Q, 0%Q) chunks) as [| l r]; [exact I |].
    cbn [timeline_from] in *. destruct H as (H1 & H2 & H3).
    repeat split; [lra | assumption | assumption].
Qed.

(** C9, counterexample. Three chunks, each from 0 s to 10 s relative to its
    pass: at the third chunk the offset goes from 10 to 20, an increase by
    the relative end (10) of the second chunk and not by its absolute end
    (20). And two chunks, from 1.0 s to 1.2 s and from 0.8 s to 1.5 s: no
    jump is detected and the second line starts before the first. *)
Lemma offset_grows_by_relative_end :
  let c := mk_chunk "a" 0 10 in
  let r1 := file_step (0%Q, 0%Q) c in
  let r2 := file_step (fst r1) c in
  let r3 := file_step (fst r2) c in
  ((start_ts c < end_ts c - (1 # 2))%Q
   /\ fst (fst r2) == 10 /\ line_end (snd r2) == 20
   /\ fst (fst r3) == 20
   /\ ~ fst (fst r3) == fst (fst r2) + line_end (snd r2))
  /\ (map line_start
        (file_service_lines [mk_chunk "a" 1 (12 # 10);
                             mk_chunk "b" (8 # 10) (15 # 10)])
      = [1 + 0; (8 # 10) + 0]%Q
      /\ ~ timeline_from 0
            (file_service_lines [mk_chunk "a" 1 (12 # 10);
                                 mk_chunk "b" (8 # 10) (15 # 10)])).
Proof.
  split.
  - repeat split; try (vm_compute; reflexivity); vm_compute; discriminate.
  - split; [reflexivity |]. intros H. vm_compute in H.
    destruct H as (_ & _ & H & _). apply H. reflexivity.
Qed.

Lemma jump_offset_and_monotone_timeline_witness :
  let prev := mk_chunk "a" 0 10 in
  let chunk := mk_chunk "b" 0 4 in
  let r1 := file_step (10%Q, 10%Q) prev in
  let r2 := file_step (fst r1) chunk in
  (fst (fst r2) == fst (fst r1) + end_ts prev
   /\ fst (fst r2) == line_end (snd r1)
   /\ line_start (snd r2) == start_ts chunk + line_end (snd r1)
   /\ ((0 <= start_ts chunk)%Q -> (line_end (snd r1) <= line_start (snd r2))%Q))
  /\ timeline_from 0 (file_service_lines [prev; chunk; mk_chunk "c" 5 6]).
Proof.
  intros prev chunk r1 r2.
  pose proof (jump_offset_and_monotone_timeline (10%Q, 10%Q) prev chunk
                [prev; chunk; mk_chunk "c" 5 6]) as [H1 H2].
  split.
  - apply H1. reflexivity.
  - apply H2. vm_compute. intuition discriminate.
Defined.

(** *** Rendering of timestamps of a day or more *)












(** ** Further properties *)

(** ** Sessions across calls *)

Lemma buffer_duration_nonneg (buffer_data : bytes) (sample_rate : Z)
    (is_int16 : bool) (target : Q) (d : Q) (ready : bool) :
  0 < sample_rate ->
  check_buffer_status buffer_data sample_rate is_int16 target
  = Some (d, ready) ->
  (0 <= d)%Q.
Proof.
  intros Hsr. unfold check_buffer_status, calculate_pcm_duration, py_truediv.
  destruct (Qeq_bool (inject_Z sample_rate) 0); [discriminate |].
  simpl. intros H. inversion H; subst.
  apply Qle_shift_div_l; [rewrite <- (Zlt_Qlt 0); exact Hsr |].
  rewrite Qmult_0_l. rewrite <- (Zle_Qle 0).
  destruct is_int16; apply Z.div_pos; unfold len; lia.
Qed.

Section SessionFacts.

Context `{C : Collaborators}.

(** What a call on a session's entry keeps. *)
Lemma session_round_keeps (s : Session.t) (audio_data : bytes)
    (params : Params.t) (action : string) s' resp log :
  session_round s audio_data params action = (s', resp, log) ->
  Session.sample_rate s' = Session.sample_rate s
  /\ Session.is_int16 s' = Session.is_int16 s
  /\ Session.accumulated_chunks s `prefix_of` Session.accumulated_chunks s'
  /\ (0 < Session.sample_rate s ->
      (Session.processed_length s <= Session.processed_length s')%Q)
  /\ (log <> [] -> Session.audio_buffer s' = [])
  /\ (log = [] ->
      s' = Session.set_audio_buffer (Session.audio_buffer s ++ audio_data) s).
Proof.
  intros H. unfold session_round in H.
  cbn [Session.audio_buffer Session.sample_rate Session.is_int16
       Session.overlap_buffer Session.processed_length
       Session.set_audio_buffer] in H.
  destruct (check_buffer_status _ _ _ _) as [[d ready] |] eqn:Hc;
    [| inversion H; subst; simpl; repeat split; try reflexivity; try congruence; intros; apply Qle_refl].
  destruct (negb ready && negb (String.eqb action "finish-task"));
    [inversion H; subst; simpl; repeat split; try reflexivity; try congruence; intros; apply Qle_refl |].
  destruct (process_with_vad _ _ _ _ _ _) as [[segs calls] |];
    [| inversion H; subst; simpl; repeat split; try reflexivity; try congruence; intros; apply Qle_refl].
  destruct (withhold_last action _ segs _) as [[s3 to_transcribe] inc] eqn:W.
  assert (Hs3 : Session.sample_rate s3 = Session.sample_rate s
                /\ Session.is_int16 s3 = Session.is_int16 s
                /\ Session.accumulated_chunks s3 = Session.accumulated_chunks s
                /\ Session.processed_length s3 = Session.processed_length s
                /\ Session.audio_buffer s3 = []).
  { unfold withhold_last in W.
    destruct (String.eqb action "finish-task");
      [inversion W; subst; simpl; auto |].
    destruct (last segs) as [[[seg ls] le] |];
      inversion W; subst; simpl; auto. }
  destruct Hs3 as (Hsr & Hint & Hacc & Hpl & Hbuf).
  destruct (transcribe_segments _ _ _ _) as [chunks |].
  - assert (Heff : 0 < Session.sample_rate s ->
                   (0 <= effective_duration_of d inc s3)%Q).
    { intros Hpos. unfold effective_duration_of.
      destruct (inc && Qlt_bool 0 (Session.last_segment_start_time s3)) eqn:E.
      - apply andb_true_iff in E as [_ E]. apply Qlt_bool_iff in E. lra.
      - eapply buffer_duration_nonneg; eassumption. }
    destruct (non_empty chunks);
      [destruct (create_srt_content _ 0) |];
      inversion H; subst; simpl; rewrite ?Hsr, ?Hint, ?Hacc, ?Hpl, ?Hbuf;
      (split; [reflexivity |]); (split; [reflexivity |]);
      (split; [first [reflexivity | apply prefix_app_r; reflexivity] |]);
      (split; [intros Hpos; specialize (Heff Hpos); lra |]);
      (split; [reflexivity | discriminate]).
  - inversion H; subst. rewrite Hsr, Hint, Hacc, Hpl, Hbuf.
    repeat split; try reflexivity; try discriminate. intros _. apply Qle_refl.
Qed.

(** The effect of one call on a session the store holds: the entry is
    untouched, or removed by a cache clear, or it is the result of the
    [try] block on the entry. *)
Lemma execute_session_effect (audio_cache : gmap string Session.t)
    (audio_data : option bytes) (params : Params.t) (session_id : string)
    (s : Session.t) :
  let o := _execute_streaming_service audio_cache audio_data params in
  audio_cache !! session_id = Some s ->
  cache_after o !! session_id = Some s
  \/ (cache_after o !! session_id = None /\ response o = cache_cleared)
  \/ (exists audio s',
        audio_data = Some audio
        /\ Params.task_id params = session_id
        /\ session_round s audio params (default "" (Params.action params))
           = (s', response o, events o)
        /\ cache_after o !! session_id = Some s').
Proof.
  intros o Hs.
  pose proof (execute_cases audio_cache audio_data params) as Hcases.
  cbv zeta in Hcases. fold o in Hcases.
  destruct Hcases as [(_ & Hc & _) | [(_ & Hr & Hc) | (audio & -> & Ho)]].
  - left. rewrite Hc. exact Hs.
  - destruct (decide (Params.task_id params = session_id)) as [E | Hne].
    + right; left. rewrite Hc, E, lookup_delete_eq. auto.
    + left. rewrite Hc, lookup_delete_ne by exact Hne. exact Hs.
  - unfold streaming_round in Ho.
    destruct (decide (Params.task_id params = session_id)) as [E | Hne].
    + rewrite E, Hs in Ho. cbn [default from_option id] in Ho.
      destruct (session_round s audio params _) as [[s1 r1] l1] eqn:Hround.
      right; right. exists audio, s1. rewrite Ho. cbn [response events cache_after].
      rewrite lookup_insert_eq. auto.
    + destruct (session_round _ audio params _) as [[s1 r1] l1].
      left. rewrite Ho. cbn [cache_after].
      rewrite lookup_insert_ne by exact Hne. exact Hs.
Qed.

(** X1. A call changes no session but the one named by its task id: the
    entry of every other session id is the same before and after. *)
Theorem other_sessions_untouched (audio_cache : gmap string Session.t)
    (audio_data : option bytes) (params : Params.t) (other : string) :
  other <> Params.task_id params ->
  cache_after (_execute_streaming_service audio_cache audio_data params)
    !! other
  = audio_cache !! other.
Proof.
  intros Hne.
  pose proof (execute_cases audio_cache audio_data params) as Hcases.
  cbv zeta in Hcases.
  destruct Hcases as [(_ & Hc & _) | [(_ & Hr & Hc) | (audio & -> & Ho)]].
  - rewrite Hc. reflexivity.
  - rewrite Hc. apply lookup_delete_ne. congruence.
  - rewrite Ho. unfold streaming_round.
    destruct (session_round _ audio params _) as [[s1 r1] l1].
    cbn [cache_after]. apply lookup_insert_ne. congruence.
Qed.

Lemma execute_keeps (audio_cache : gmap string Session.t)
    (audio_data : option bytes) (params : Params.t) (session_id : string)
    (s s' : Session.t) :
  let o := _execute_streaming_service audio_cache audio_data params in
  audio_cache !! session_id = Some s ->
  cache_after o !! session_id = Some s' ->
  Session.sample_rate s' = Session.sample_rate s
  /\ Session.is_int16 s' = Session.is_int16 s
  /\ Session.accumulated_chunks s `prefix_of` Session.accumulated_chunks s'
  /\ (0 < Session.sample_rate s ->
      (Session.processed_length s <= Session.processed_length s')%Q).
Proof.
  intros o Hs Hs'.
  destruct (execute_session_effect audio_cache audio_data params session_id s Hs)
    as [H | [[H _] | (audio & s1 & _ & _ & Hround & H)]]; fold o in H.
  - rewrite H in Hs'. inversion Hs'; subst. repeat split; try reflexivity.
    intros; apply Qle_refl.
  - congruence.
  - rewrite H in Hs'. inversion Hs'; subst.
    destruct (session_round_keeps _ _ _ _ _ _ _ Hround)
      as (H1 & H2 & H3 & H4 & _). auto.
Qed.

(** X3. The sample rate and the sample format of a session are those of
    the call that created it: whatever a later call declares, a session
    that is still in the store has them unchanged. *)
Theorem session_format_fixed (audio_cache : gmap string Session.t)
    (audio_data : option bytes) (params : Params.t) (session_id : string)
    (s s' : Session.t) :
  let o := _execute_streaming_service audio_cache audio_data params in
  audio_cache !! session_id = Some s ->
  cache_after o !! session_id = Some s' ->
  Session.sample_rate s' = Session.sample_rate s
  /\ Session.is_int16 s' = Session.is_int16 s.
Proof.
  intros o Hs Hs'.
  destruct (execute_keeps audio_cache audio_data params session_id s s' Hs Hs')
    as (H1 & H2 & _). auto.
Qed.

(** X4. For a session with a positive sample rate, no call makes
    [processed_length] smaller. *)
Theorem processed_length_never_decreases
    (audio_cache : gmap string Session.t) (audio_data : option bytes)
    (params : Params.t) (session_id : string) (s s' : Session.t) :
  let o := _execute_streaming_service audio_cache audio_data params in
  audio_cache !! session_id = Some s ->
  0 < Session.sample_rate s ->
  cache_after o !! session_id = Some s' ->
  (Session.processed_length s <= Session.processed_length s')%Q.
Proof.
  intros o Hs Hsr Hs'.
  destruct (execute_keeps audio_cache audio_data params session_id s s' Hs Hs')
    as (_ & _ & _ & H). auto.
Qed.


(** X2. The response and the events of a call, and the entry it leaves for
    its session id, depend on the store only through the entry of that
    session id. *)
Theorem call_reads_own_session_only (cache1 cache2 : gmap string Session.t)
    (audio_data : option bytes) (params : Params.t) :
  let o1 := _execute_streaming_service cache1 audio_data params in
  let o2 := _execute_streaming_service cache2 audio_data params in
  cache1 !! Params.task_id params = cache2 !! Params.task_id params ->
  response o1 = response o2
  /\ events o1 = events o2
  /\ cache_after o1 !! Params.task_id params
     = cache_after o2 !! Params.task_id params.
Proof.
  intros o1 o2 E. subst o1 o2. unfold _execute_streaming_service.
  assert (Hin : in_cache cache1 (Params.task_id params)
                = in_cache cache2 (Params.task_id params))
    by (unfold in_cache; rewrite E; reflexivity).
  assert (Hfin : forall b,
            _finalize_processing cache1 (Params.task_id params) b
            = _finalize_processing cache2 (Params.task_id params) b)
    by (intros b; unfold _finalize_processing; rewrite E; reflexivity).
  rewrite Hin, !Hfin.
  destruct (String.eqb _ ""); [auto |].
  destruct (Params.clear_cache params && in_cache _ _);
    [cbn [response events cache_after]; rewrite !lookup_delete_eq; auto |].
  destruct (String.eqb _ "finish-task" && in_cache _ _); [auto |].
  destruct (negb _ && in_cache _ _); [auto |].
  destruct audio_data as [audio |]; [| auto].
  unfold streaming_round. rewrite E.
  destruct (session_round _ audio params _) as [[s1 r1] l1].
  cbn [response events cache_after]. rewrite !lookup_insert_eq. auto.
Qed.

(** X6. A call that finalizes a session (no audio, empty audio, or the
    finish-task action, on a session the store holds) changes nothing in
    the store: the session is kept with its buffers, and audio that comes
    with a finish-task is not buffered. The call is answered "completed",
    unless rendering the accumulated chunks overflows. *)
Theorem finalize_keeps_store (audio_cache : gmap string Session.t)
    (audio_data : option bytes) (params : Params.t) (s : Session.t) :
  let o := _execute_streaming_service audio_cache audio_data params in
  Params.task_id params <> "" ->
  audio_cache !! Params.task_id params = Some s ->
  Params.clear_cache params = false ->
  audio_data = None \/ audio_data = Some []
  \/ Params.action params = Some "finish-task" ->
  cache_after o = audio_cache
  /\ events o = []
  /\ ((exists content message, response o = completed content message)
      \/ response o = raise_OverflowError).
Proof.
  intros o Hid Hs Hclear Hfin. subst o. unfold _execute_streaming_service.
  apply String.eqb_neq in Hid. rewrite Hid, Hclear. cbn [andb].
  assert (Hin : in_cache audio_cache (Params.task_id params) = true).
  { unfold in_cache. apply bool_decide_eq_true. rewrite Hs. eauto. }
  rewrite Hin, !andb_true_r.
  assert (Hresp : forall b dflt,
    (exists content message,
       default dflt (_finalize_processing audio_cache (Params.task_id params) b)
       = completed content message)
    \/ default dflt (_finalize_processing audio_cache (Params.task_id params) b)
       = raise_OverflowError).
  { intros b dflt. unfold _finalize_processing. rewrite Hs. simpl.
    repeat (match goal with
            | |- context [match ?x with _ => _ end] => destruct x
            end; simpl; eauto). }
  destruct (String.eqb (default "" (Params.action params)) "finish-task")
    eqn:Hact; [cbn [cache_after events response]; auto |].
  destruct Hfin as [-> | [-> | Ha]].
  - simpl. auto.
  - simpl. auto.
  - rewrite Ha in Hact. discriminate.
Qed.

(** X7. A cache clear on a session the store holds removes exactly that
    entry, discards any audio sent with the request, and a later call on
    the same id is served as on a store that never held the session. *)
Theorem clear_resets_session (audio_cache : gmap string Session.t)
    (audio_data : option bytes) (params : Params.t) (s : Session.t)
    (next_audio : option bytes) (next_params : Params.t) :
  let o := _execute_streaming_service audio_cache audio_data params in
  let next := _execute_streaming_service (cache_after o) next_audio
                next_params in
  let fresh := _execute_streaming_service ∅ next_audio next_params in
  Params.task_id params <> "" ->
  audio_cache !! Params.task_id params = Some s ->
  Params.clear_cache params = true ->
  Params.task_id next_params = Params.task_id params ->
  response o = cache_cleared
  /\ events o = []
  /\ cache_after o = delete (Params.task_id params) audio_cache
  /\ response next = response fresh
  /\ events next = events fresh
  /\ cache_after next !! Params.task_id params
     = cache_after fresh !! Params.task_id params.
Proof.
  intros o next fresh Hid Hs Hclear Hsame.
  assert (Ho : o = mk_outcome (delete (Params.task_id params) audio_cache)
                     cache_cleared []).
  { subst o. unfold _execute_streaming_service.
    apply String.eqb_neq in Hid. rewrite Hid, Hclear.
    assert (Hin : in_cache audio_cache (Params.task_id params) = true).
    { unfold in_cache. apply bool_decide_eq_true. rewrite Hs. eauto. }
    rewrite Hin. reflexivity. }
  rewrite Ho. cbn [response events cache_after].
  repeat (split; [reflexivity |]).
  subst next fresh. rewrite Ho. cbn [cache_after]. rewrite <- Hsame.
  apply call_reads_own_session_only.
  rewrite Hsame, lookup_delete_eq, lookup_empty. reflexivity.
Qed.

(** X8. A call that starts a round leaves the pending buffer of its session
    empty, whether the round succeeds or ends in an error. *)
Theorem round_consumes_pending (audio_cache : gmap string Session.t)
    (audio_data : option bytes) (params : Params.t) :
  let o := _execute_streaming_service audio_cache audio_data params in
  events o <> [] ->
  exists s', cache_after o !! Params.task_id params = Some s'
             /\ Session.audio_buffer s' = [].
Proof.
  intros o Hev.
  pose proof (execute_cases audio_cache audio_data params) as Hcases.
  cbv zeta in Hcases. fold o in Hcases.
  destruct Hcases as [(He & _) | [(He & _) | (audio & -> & Ho)]];
    try congruence.
  unfold streaming_round in Ho.
  destruct (session_round _ audio params _) as [[s1 r1] l1] eqn:Hround.
  rewrite Ho in Hev |- *. cbn [cache_after events] in Hev |- *.
  exists s1. rewrite lookup_insert_eq. split; [reflexivity |].
  destruct (session_round_keeps _ _ _ _ _ _ _ Hround)
    as (_ & _ & _ & _ & H & _). auto.
Qed.

End SessionFacts.

(** ** Further properties of the VAD processor *)

Lemma vad_step_bounds (self : EnhancedVadProcessor) (st : VadState) (i : Z)
    (speech : bool) :
  0 <= i ->
  (is_speech st = true ->
   0 <= silence_frames st /\ 0 <= speech_start_frame st) ->
  let r := vad_step self st i speech in
  (is_speech (fst r) = true ->
   0 <= silence_frames (fst r) /\ 0 <= speech_start_frame (fst r))
  /\ (forall p, snd r = Some p -> 0 <= fst p /\ snd p <= i + 1).
Proof.
  intros Hi Hst. unfold vad_step.
  destruct st as [sp sil cnt start]; simpl in *.
  destruct sp, speech; simpl;
    repeat match goal with
           | |- context [?x <=? ?y] =>
               let E := fresh "E" in
               destruct (Z.leb_spec x y) as [E | E]; simpl
           end;
    (split; [intros; try discriminate; try lia
            | intros p Hp; inversion Hp; subst; simpl; lia]).
Qed.

Lemma vad_loop_bounds (self : EnhancedVadProcessor) (flags : list bool) :
  forall (st : VadState) (i : Z),
    0 <= i ->
    (is_speech st = true ->
     0 <= silence_frames st /\ 0 <= speech_start_frame st) ->
    (is_speech (fst (vad_loop self st i flags)) = true ->
     0 <= speech_start_frame (fst (vad_loop self st i flags)))
    /\ Forall (fun p => 0 <= fst p /\ snd p <= i + len flags)
         (snd (vad_loop self st i flags)).
Proof.
  induction flags as [| b r IH]; intros st i Hi Hst.
  - simpl. split; [intros H; apply Hst in H; lia | constructor].
  - cbn [vad_loop].
    destruct (vad_step_bounds self st i b Hi Hst) as [Hst1 Hout].
    destruct (vad_step self st i b) as [st1 out]. simpl in Hst1, Hout.
    assert (Hi1 : 0 <= i + 1) by lia.
    destruct (IH st1 (i + 1) Hi1 Hst1) as [Hf Hall].
    destruct (vad_loop self st1 (i + 1) r) as [st2 outs]. simpl in *.
    assert (Hlen : i + len (b :: r) = i + 1 + len r)
      by (unfold len; simpl length; lia).
    rewrite Hlen. split; [exact Hf |].
    assert (Hall' : Forall (fun p => 0 <= fst p /\ snd p <= i + 1 + len r) outs)
      by exact Hall.
    destruct out as [p |]; [| exact Hall'].
    constructor; [| exact Hall'].
    destruct (Hout p eq_refl). unfold len. lia.
Qed.

(** X19. Whatever the configuration and the verdicts, the segments found
    by the automaton lie within the whole frames of the buffer: no segment
    starts before frame 0 or ends after the last whole frame. *)
Theorem segment_indices_within_buffer (self : EnhancedVadProcessor)
    (flags : list bool) :
  Forall (fun p => 0 <= fst p /\ snd p <= len flags)
    (speech_segments_indices self (len flags) flags).
Proof.
  unfold speech_segments_indices.
  destruct (vad_loop_bounds self flags reset_state 0) as [Hf Hall];
    [lia | discriminate |].
  destruct (vad_loop self reset_state 0 flags) as [st idx]. simpl in *.
  destruct (is_speech st) eqn:Hsp; [| exact Hall].
  destruct (min_speech_frames self <=? speech_frame_count st); [| exact Hall].
  simpl. apply Forall_app. split; [exact Hall |].
  constructor; [| constructor]. simpl. split; [auto | lia].
Qed.

Lemma vad_loop_all_false (self : EnhancedVadProcessor) (flags : list bool) :
  Forall (eq false) flags ->
  forall (st : VadState) (i : Z),
    is_speech st = false -> vad_loop self st i flags = (st, []).
Proof.
  induction 1 as [| b r <- _ IH]; intros st i Hst; [reflexivity |].
  cbn [vad_loop]. unfold vad_step. rewrite Hst. simpl.
  rewrite (IH st (i + 1) Hst). reflexivity.
Qed.

Lemma inject_Z_nonzero (z : Z) : z <> 0 -> Qeq_bool (inject_Z z) 0 = false.
Proof.
  intros Hz. destruct (Qeq_bool (inject_Z z) 0) eqn:E; [| reflexivity].
  apply Qeq_bool_iff in E. unfold Qeq in E. simpl in E. lia.
Qed.

Lemma sumZ_nonpos (l : list Z) : Forall (fun x => x <= 0) l -> sumZ l <= 0.
Proof. induction 1; simpl; lia. Qed.

(** X16. A buffer whose samples are all 0, or all -32768 (whose absolute
    value wraps to -32768 in int16), or a mix of the two, is never loud
    enough for a threshold that is not negative; neither is the empty
    buffer. *)
Theorem silent_or_wrapped_samples_never_loud (self : EnhancedVadProcessor)
    (audio_np : list Z) :
  (0 <= hallucinate_threshold self)%Q ->
  Forall (fun x => x = 0 \/ x = -32768) audio_np ->
  _is_audio_loud_enough self audio_np = false.
Proof.
  intros Hthr Hall. unfold _is_audio_loud_enough, np_mean.
  destruct (map np_abs_int16 audio_np) as [| y ys] eqn:E; [reflexivity |].
  destruct (Qlt_bool _ _) eqn:Hlt; [| reflexivity]. exfalso.
  apply Qlt_bool_iff in Hlt.
  assert (Hsum : sumZ (y :: ys) <= 0).
  { rewrite <- E. apply sumZ_nonpos. apply Forall_forall. intros x Hx.
    apply list_elem_of_In, in_map_iff in Hx as (z & <- & Hz).
    apply list_elem_of_In in Hz.
    rewrite Forall_forall in Hall. destruct (Hall z Hz) as [-> | ->];
      vm_compute; discriminate. }
  assert (Hmean : (inject_Z (sumZ (y :: ys)) / inject_Z (len (y :: ys)) <= 0)%Q).
  { apply Qle_shift_div_r.
    - rewrite <- (Zlt_Qlt 0). unfold len. simpl length. lia.
    - rewrite Qmult_0_l. rewrite <- (Zle_Qle _ 0). exact Hsum. }
  lra.
Qed.


Section VadFacts.

Context `{C : Collaborators}.

(** X18. Fail-safe default: when the VAD primitive never answers "speech"
    for any frame (it may answer "no speech" or raise), [segment_audio]
    returns the whole buffer as its only segment, from 0 to the duration of
    the buffer. *)
Theorem no_speech_verdict_gives_whole_buffer (self : EnhancedVadProcessor)
    (audio_data : list Z) :
  vad_frame_size self <> 0 ->
  sample_rate self <> 0 ->
  (forall frame,
     vad_is_speech (vad_mode self) frame (sample_rate self) <> Some true) ->
  segment_audio self audio_data true
  = Some ([_transfer_audiodata_to_float audio_data],
          [(0%Q, (inject_Z (len audio_data) / inject_Z (sample_rate self))%Q)]).
Proof.
  intros Hfs Hsr Hvad. unfold segment_audio.
  apply Z.eqb_neq in Hfs. rewrite Hfs.
  set (fc := len audio_data / vad_frame_size self).
  assert (Hflags : Forall (eq false) (classify_frames self audio_data fc)).
  { unfold classify_frames. apply Forall_forall. intros b Hb.
    apply list_elem_of_In, in_map_iff in Hb as (i & <- & _).
    unfold process_frame.
    destruct (vad_is_speech _ _ _) as [[|] |] eqn:E;
      [exfalso; eapply Hvad; exact E | reflexivity | reflexivity]. }
  unfold speech_segments_indices.
  rewrite (vad_loop_all_false self _ Hflags reset_state 0 eq_refl).
  simpl. unfold py_truediv. rewrite (inject_Z_nonzero _ Hsr). reflexivity.
Qed.

Lemma segment_audio_shape (self : EnhancedVadProcessor) (audio_data : list Z)
    (segments : list (list F32)) (timestamps : list (Q * Q)) :
  segment_audio self audio_data true = Some (segments, timestamps) ->
  length segments = length timestamps /\ segments <> [].
Proof.
  unfold segment_audio. destruct (vad_frame_size self =? 0); [discriminate |].
  destruct (speech_segments_indices self _ _) as [| p idx].
  - simpl. destruct (py_truediv _ _); [| discriminate]. simpl.
    intros H. inversion H; subst. split; [reflexivity | discriminate].
  - cbn [map]. intros H. inversion H; subst.
    split; [simpl; rewrite !length_map; reflexivity | discriminate].
Qed.

(** X14. Whenever [process_with_vad] returns, it returns at least one
    segment (without VAD, when the energy gate fails, and when no speech
    is found, the whole buffer), and a count of classified frames that is
    not negative. *)
Theorem process_with_vad_never_empty (pcm_data : bytes) (sample_rate : Z)
    (is_int16 use_vad : bool) (threshold : Q) (mode : Z)
    (audio_segments : list Segment) (vad_calls : Z) :
  process_with_vad pcm_data sample_rate is_int16 use_vad threshold mode
  = Some (audio_segments, vad_calls) ->
  audio_segments <> [] /\ 0 <= vad_calls.
Proof.
  unfold process_with_vad.
  assert (Hwhole : forall segs,
            whole_buffer pcm_data sample_rate is_int16 = Some segs ->
            segs <> []).
  { unfold whole_buffer. intros segs H.
    destruct (process_pcm_data _ _ _); [| discriminate]. simpl in H.
    inversion H. discriminate. }
  destruct use_vad; simpl.
  - destruct (if is_int16 then _ else _) as [pcm_int16 |]; [| discriminate].
    simpl. destruct (_is_audio_loud_enough _ pcm_int16); simpl.
    + unfold process_audio.
      destruct (segment_audio _ pcm_int16 true) as [[segs ts] |] eqn:Hseg;
        [| discriminate].
      simpl. intros H. inversion H; subst. split; [| unfold len; lia].
      destruct (segment_audio_shape _ _ _ _ Hseg) as [Hlen Hne].
      destruct segs as [| x segs]; [congruence |].
      destruct ts as [| t ts]; [discriminate |]. discriminate.
    + destruct (whole_buffer _ _ _) as [segs |] eqn:Hw; [| discriminate].
      simpl. intros H. inversion H; subst. split; [eauto | lia].
  - destruct (whole_buffer _ _ _) as [segs |] eqn:Hw; [| discriminate].
    simpl. intros H. inversion H; subst. split; [eauto | lia].
Qed.


Lemma slice_app_whole_frame {A} (l tail : list A) (a fs : Z) :
  0 <= a -> 0 <= fs -> a + fs <= len l ->
  slice a (a + fs) (l ++ tail) = slice a (a + fs) l.
Proof.
  intros Ha Hfs Hle. unfold slice, len in *.
  rewrite drop_app_le by lia.
  apply take_app_le. rewrite length_drop. lia.
Qed.

(** X20. A trailing partial frame is not classified: samples that follow
    the last whole frame and do not fill a frame change neither the
    verdicts nor the segments found. *)
Theorem trailing_partial_frame_is_ignored (self : EnhancedVadProcessor)
    (audio_data tail : list Z) :
  let fs := vad_frame_size self in
  0 < fs ->
  len audio_data mod fs = 0 ->
  len tail < fs ->
  classify_frames self (audio_data ++ tail) (len (audio_data ++ tail) / fs)
  = classify_frames self audio_data (len audio_data / fs)
  /\ speech_segments_indices self (len (audio_data ++ tail) / fs)
       (classify_frames self (audio_data ++ tail)
          (len (audio_data ++ tail) / fs))
     = speech_segments_indices self (len audio_data / fs)
         (classify_frames self audio_data (len audio_data / fs)).
Proof.
  intros fs Hfs Hmod Htail.
  assert (Hfc : len (audio_data ++ tail) / fs = len audio_data / fs).
  { unfold len. rewrite length_app, Nat2Z.inj_add. fold (len audio_data).
    fold (len tail).
    rewrite (Z.div_mod (len audio_data) fs) at 1 by lia. rewrite Hmod.
    replace (fs * (len audio_data / fs) + 0 + len tail)
      with (len tail + (len audio_data / fs) * fs) by lia.
    rewrite Z_div_plus_full by lia.
    rewrite Z.div_small by (unfold len in *; lia). lia. }
  assert (Hcl : classify_frames self (audio_data ++ tail)
                  (len (audio_data ++ tail) / fs)
                = classify_frames self audio_data (len audio_data / fs)).
  { rewrite Hfc. unfold classify_frames. fold fs. apply map_ext_in.
    intros i Hi. apply list_elem_of_In, elem_of_seqZ in Hi. f_equal.
    replace ((i + 1) * fs) with (i * fs + fs) by lia.
    apply slice_app_whole_frame; [nia | lia |].
    assert (Hdm := Z.div_mod (len audio_data) fs ltac:(lia)).
    rewrite Hmod in Hdm. nia. }
  split; [exact Hcl |]. rewrite Hcl, Hfc. reflexivity.
Qed.

End VadFacts.

Lemma slice_from_suffix {A} (n : Z) (l : list A) : slice_from n l `suffix_of` l.
Proof. unfold slice_from. destruct (n <? 0); apply suffix_drop. Qed.

Section RoundFacts.

Context `{C : Collaborators}.

Lemma session_round_segmented (s : Session.t) (audio_data : bytes)
    (params : Params.t) (action : string) s' resp process_data
    audio_segments vad_calls tail :
  session_round s audio_data params action
  = (s', resp,
     Combined process_data :: Segmented audio_segments vad_calls :: tail) ->
  process_with_vad process_data (Session.sample_rate s) (Session.is_int16 s)
    (Params.use_vad params) (Params.hallucinate_threshold params)
    (Params.vad_mode params)
  = Some (audio_segments, vad_calls).
Proof.
  unfold session_round.
  cbn [Session.audio_buffer Session.sample_rate Session.is_int16
       Session.overlap_buffer Session.processed_length
       Session.set_audio_buffer].
  destruct (check_buffer_status _ _ _ _) as [[d ready] |]; [| discriminate].
  destruct (negb ready && negb (String.eqb action "finish-task"));
    [discriminate |].
  destruct (process_with_vad _ _ _ _ _ _) as [[segs calls] |] eqn:Hv;
    [| discriminate].
  destruct (withhold_last action _ segs _) as [[s3 to_transcribe] inc].
  destruct (transcribe_segments _ _ _ _) as [chunks |].
  - destruct (non_empty chunks); [destruct (create_srt_content _ 0) |];
      intros H; inversion H; subst; exact Hv.
  - intros H; inversion H; subst; exact Hv.
Qed.

(** X10. After a round that is not a finish-task, the overlap buffer of the
    session is a suffix of the combined buffer of that round: the bytes kept
    back are the tail of what the round was given, nothing else. *)
Theorem overlap_is_suffix_of_round_input
    (audio_cache : gmap string Session.t) (audio_data : option bytes)
    (params : Params.t) (process_data : bytes)
    (audio_segments : list Segment) (vad_calls : Z) (tail : list Event) :
  let o := _execute_streaming_service audio_cache audio_data params in
  Params.action params <> Some "finish-task" ->
  events o = Combined process_data :: Segmented audio_segments vad_calls
             :: tail ->
  exists s', cache_after o !! Params.task_id params = Some s'
             /\ Session.overlap_buffer s' `suffix_of` process_data.
Proof.
  intros o Hact Hev.
  assert (Hne : audio_segments <> []).
  { pose proof (execute_cases audio_cache audio_data params) as Hcases.
    cbv zeta in Hcases. fold o in Hcases.
    destruct Hcases as [(He & _) | [(He & _) | (audio & -> & Ho)]];
      try congruence.
    unfold streaming_round in Ho.
    destruct (session_round _ audio params _) as [[s1 r1] l1] eqn:Hround.
    rewrite Ho in Hev. cbn [events] in Hev. subst l1.
    apply session_round_segmented in Hround.
    apply process_with_vad_never_empty in Hround. apply Hround. }
  destruct (last audio_segments) as [[[seg ls] le] |] eqn:Hlast.
  - destruct (round_sets_overlap audio_cache audio_data params process_data
                audio_segments vad_calls tail seg ls le Hev Hact Hlast)
      as (s' & Hs' & Hov).
    exists s'. split; [exact Hs' |]. rewrite Hov. apply slice_from_suffix.
  - apply last_None in Hlast. contradiction.
Qed.



End RoundFacts.

(** ** Bytes and samples *)

Lemma byte_of_Z_value (z : Z) : Z.of_N (Byte.to_N (byte_of_Z z)) = z mod 256.
Proof.
  unfold byte_of_Z.
  assert (Hm : 0 <= z mod 256 < 256) by (apply Z.mod_pos_bound; lia).
  pose proof (Byte.to_of_N_option_map (Z.to_N (z mod 256))) as H.
  destruct (Byte.of_N (Z.to_N (z mod 256))) as [b |]; simpl in H.
  - destruct (N.leb_spec (Z.to_N (z mod 256)) 255); [| discriminate].
    inversion H as [Hb]. rewrite Hb. lia.
  - destruct (N.leb_spec (Z.to_N (z mod 256)) 255); [discriminate | lia].
Qed.

Lemma byte_of_Z_of_byte (b : Byte.byte) (z : Z) :
  z mod 256 = Z.of_N (Byte.to_N b) -> byte_of_Z z = b.
Proof.
  intros H. unfold byte_of_Z. rewrite H, N2Z.id, Byte.of_to_N. reflexivity.
Qed.

Lemma int16_of_le_bytes (x : Z) :
  -32768 <= x < 32768 ->
  int16_of_le (byte_of_Z x) (byte_of_Z (x / 256)) = x.
Proof.
  intros Hx. unfold int16_of_le. rewrite !byte_of_Z_value.
  destruct (Z.ltb_spec (x mod 256 + 256 * ((x / 256) mod 256)) 32768);
    Z.div_mod_to_equations; lia.
Qed.

Lemma bytes_of_int16_of_le (lo hi : Byte.byte) :
  byte_of_Z (int16_of_le lo hi) = lo
  /\ byte_of_Z (int16_of_le lo hi / 256) = hi.
Proof.
  pose proof (Byte.to_N_bounded lo) as Hlo.
  pose proof (Byte.to_N_bounded hi) as Hhi.
  unfold int16_of_le.
  set (l := Z.of_N (Byte.to_N lo)) in *. set (h := Z.of_N (Byte.to_N hi)) in *.
  assert (0 <= l < 256) by (unfold l; lia).
  assert (0 <= h < 256) by (unfold h; lia).
  split; apply byte_of_Z_of_byte; fold l h;
    destruct (Z.ltb_spec (l + 256 * h) 32768);
    Z.div_mod_to_equations; lia.
Qed.

Lemma tobytes_int16_len (samples : list Z) :
  len (tobytes_int16 samples) = 2 * len samples.
Proof.
  unfold len. induction samples as [| x r IH]; [reflexivity |].
  cbn [tobytes_int16 flat_map app length]. fold (tobytes_int16 r). lia.
Qed.

Lemma tobytes_int16_pairs (n : nat) :
  forall b : bytes, length b = (2 * n)%nat -> tobytes_int16 (int16_pairs b) = b.
Proof.
  induction n as [| n IH]; intros b Hb.
  - destruct b; [reflexivity | discriminate].
  - destruct b as [| lo [| hi r]]; try (simpl in Hb; lia).
    cbn [int16_pairs tobytes_int16 flat_map app]. fold (tobytes_int16 (int16_pairs r)).
    destruct (bytes_of_int16_of_le lo hi) as [-> ->].
    rewrite IH by (simpl in Hb; lia). reflexivity.
Qed.

(** X21. int16 buffers round-trip: decoding the bytes of an array of int16
    samples gives the array back, and encoding the samples decoded from a
    buffer of whole samples gives the buffer back. *)
Theorem int16_bytes_round_trip :
  (forall samples : list Z,
     Forall (fun x => -32768 <= x < 32768) samples ->
     frombuffer_int16 (tobytes_int16 samples) = Some samples)
  /\ (forall (b : bytes) (samples : list Z),
       frombuffer_int16 b = Some samples -> tobytes_int16 samples = b).
Proof.
  split.
  - intros samples Hr. unfold frombuffer_int16.
    rewrite tobytes_int16_len.
    replace (2 * len samples) with (len samples * 2) by lia.
    rewrite Z_mod_mult. simpl. f_equal.
    induction Hr as [| x r Hx _ IH]; [reflexivity |].
    cbn [tobytes_int16 flat_map app int16_pairs]. fold (tobytes_int16 r).
    rewrite int16_of_le_bytes by exact Hx. rewrite IH. reflexivity.
  - intros b samples. unfold frombuffer_int16.
    destruct (Z.eqb_spec (len b mod 2) 0) as [E | E]; [| discriminate].
    intros H. inversion H; subst.
    apply (tobytes_int16_pairs (Z.to_nat (len b / 2))).
    unfold len in *. Z.div_mod_to_equations. lia.
Qed.

(** ** Width of the rendered time *)

Lemma string_length_app (s1 s2 : string) :
  String.length (s1 +:+ s2) = (String.length s1 + String.length s2)%nat.
Proof. induction s1 as [| c s1 IH]; simpl; [reflexivity | rewrite IH; reflexivity]. Qed.

Lemma zfill_width (w : nat) (bound n : Z) :
  forallb (fun k => Nat.eqb (String.length (zfill w k)) w) (seqZ 0 bound) = true ->
  0 <= n < bound ->
  String.length (zfill w n) = w.
Proof.
  intros Hall Hn. rewrite forallb_forall in Hall.
  apply Nat.eqb_eq. apply Hall. apply list_elem_of_In, elem_of_seqZ. lia.
Qed.

(** X22. Every timedelta is rendered in twelve characters: two digits for
    the hours, the minutes and the seconds and three for the milliseconds,
    with the separators of [HH:MM:SS,mmm]. *)
Theorem format_timedelta_width (s : Q) (td : timedelta) :
  timedelta_seconds s = Some td ->
  String.length (format_timedelta td) = 12%nat
  /\ exists hh mm ss mmm,
       format_timedelta td
       = hh +:+ ":" +:+ mm +:+ ":" +:+ ss +:+ "," +:+ mmm
       /\ String.length hh = 2%nat /\ String.length mm = 2%nat
       /\ String.length ss = 2%nat /\ String.length mmm = 3%nat.
Proof.
  unfold timedelta_seconds.
  set (us := round_half_even (s * 1000000)).
  destruct (Z.abs (td_days (timedelta_of_us us)) <=? 999999999);
    [| discriminate].
  intros H. inversion H as [Etd]. clear H.
  assert (Hsec : 0 <= td_seconds (timedelta_of_us us) < 86400).
  { unfold timedelta_of_us, US_PER_DAY. simpl. Z.div_mod_to_equations. lia. }
  assert (Hus : 0 <= td_microseconds (timedelta_of_us us) < 1000000).
  { unfold timedelta_of_us. simpl. Z.div_mod_to_equations. lia. }
  set (sec := td_seconds (timedelta_of_us us)) in *.
  set (mic := td_microseconds (timedelta_of_us us)) in *.
  assert (H2 : forall n, 0 <= n < 100 -> String.length (zfill 2 n) = 2%nat)
    by (intros n; apply zfill_width; vm_compute; reflexivity).
  assert (H3 : forall n, 0 <= n < 1000 -> String.length (zfill 3 n) = 3%nat)
    by (intros n; apply zfill_width; vm_compute; reflexivity).
  assert (Hh : String.length (zfill 2 (sec / 3600)) = 2%nat)
    by (apply H2; Z.div_mod_to_equations; lia).
  assert (Hm : String.length (zfill 2 (sec mod 3600 / 60)) = 2%nat)
    by (apply H2; Z.div_mod_to_equations; lia).
  assert (Hs : String.length (zfill 2 (sec mod 60)) = 2%nat)
    by (apply H2; Z.div_mod_to_equations; lia).
  assert (Hms : String.length (zfill 3 (mic / 1000)) = 3%nat)
    by (apply H3; Z.div_mod_to_equations; lia).
  unfold format_timedelta. fold sec mic. split.
  - rewrite !string_length_app, Hh, Hm, Hs, Hms. reflexivity.
  - eexists _, _, _, _. split; [reflexivity |]. auto.
Qed.

(** ** The file service on a single pass *)

Lemma file_loop_single_pass (chunks : list Chunk) :
  forall (time_offset prev_end : Q),
    single_pass prev_end chunks ->
    file_loop (time_offset, prev_end) chunks
    = map (fun chunk => ((start_ts chunk + time_offset)%Q,
                         (end_ts chunk + time_offset)%Q, text chunk))
          chunks.
Proof.
  induction chunks as [| c rest IH]; intros off pe Hp; [reflexivity |].
  destruct Hp as [Hc Hrest]. cbn [file_loop file_step map].
  destruct (Qlt_bool (start_ts c) (pe - (1 # 2))) eqn:Hj.
  - apply Qlt_bool_iff in Hj. lra.
  - rewrite (IH off (end_ts c) Hrest). reflexivity.
Qed.

(** X23. When the engine's chunks form a single pass (no chunk starts more
    than 0.5 s before the end of the chunk before it), the file service adds
    no offset: every output line carries the engine's own start, end and
    text. *)
Theorem single_pass_keeps_engine_times (chunks : list Chunk) :
  single_pass 0 chunks ->
  Forall2 (fun line chunk =>
             line_start line == start_ts chunk
             /\ line_end line == end_ts chunk
             /\ snd line = text chunk)
    (file_service_lines chunks) chunks.
Proof.
  intros Hp. unfold file_service_lines.
  rewrite (file_loop_single_pass chunks 0 0 Hp).
  clear Hp. induction chunks as [| c rest IH]; [constructor |].
  cbn [map]. constructor; [| exact IH].
  unfold line_start, line_end. simpl. repeat split; ring.
Qed.

(** ** The language tag *)

Lemma string_app_assoc (a b c : string) : (a +:+ b) +:+ c = a +:+ (b +:+ c).
Proof.
  induction a as [| x a IH]; [reflexivity |].
  change (String x ((a +:+ b) +:+ c) = String x (a +:+ (b +:+ c))).
  rewrite IH. reflexivity.
Qed.

Lemma string_rev_app_acc (s acc : string) :
  String.rev_app s acc = String.rev_app s "" +:+ acc.
Proof.
  revert acc. induction s as [| c s IH]; intros acc; [reflexivity |].
  change (String.rev_app s (String c acc)
          = String.rev_app s (String c "") +:+ acc).
  rewrite (IH (String c acc)), (IH (String c "")).
  rewrite string_app_assoc. reflexivity.
Qed.

Lemma string_rev_app (a b : string) :
  String.rev (a +:+ b) = String.rev b +:+ String.rev a.
Proof.
  unfold String.rev. induction a as [| c a IH].
  - change (String.rev_app b "" = String.rev_app b "" +:+ "").
    induction (String.rev_app b "") as [| x r IHr]; [reflexivity |].
    change (String x r = String x (r +:+ "")). rewrite <- IHr. reflexivity.
  - change (String.rev_app (a +:+ b) (String c "")
            = String.rev_app b "" +:+ String.rev_app a (String c "")).
    rewrite (string_rev_app_acc (a +:+ b)), IH.
    rewrite (string_rev_app_acc a (String c "")).
    rewrite string_app_assoc. reflexivity.
Qed.

(** X24. Formatting a language code is idempotent, and its result always
    starts with ["<|"] and ends with ["|>"]: formatting twice, as the
    finalize path does, is the same as formatting once. *)
Theorem format_language_idempotent (language_code : string) :
  format_language (format_language language_code)
  = format_language language_code
  /\ String.prefix "<|" (format_language language_code) = true
  /\ String.prefix ">|" (String.rev (format_language language_code)) = true.
Proof.
  assert (H : String.prefix "<|" (format_language language_code) = true
              /\ String.prefix ">|" (String.rev (format_language language_code))
                 = true).
  { unfold format_language.
    destruct (String.prefix "<|" language_code
              && String.prefix ">|" (String.rev language_code)) eqn:E.
    - apply andb_true_iff in E. exact E.
    - split; [destruct language_code; reflexivity |].
      rewrite string_rev_app, string_rev_app.
      destruct (String.rev language_code); reflexivity. }
  split; [| exact H]. destruct H as [H1 H2].
  unfold format_language at 1. rewrite H1, H2. reflexivity.
Qed.

Lemma int16_pairs_len (n : nat) :
  forall b : bytes, length b = (2 * n)%nat -> length (int16_pairs b) = n.
Proof.
  induction n as [| n IH]; intros b Hb.
  - destruct b; [reflexivity | discriminate].
  - destruct b as [| lo [| hi r]]; try (simpl in Hb; lia).
    cbn [int16_pairs length]. rewrite IH by (simpl in Hb; lia). reflexivity.
Qed.

Section MoreRoundFacts.

Context `{C : Collaborators}.

(** X17. Without resampling (int16 at 16 kHz), the whole-buffer segment
    that [process_with_vad] returns without VAD holds one float per input
    sample and ends at the duration that [check_buffer_status] computes
    for the same bytes. *)
Theorem whole_buffer_spans_buffer_duration (pcm_data : bytes)
    (audio : list F32) (start_time end_time : Q) (target : Q) :
  whole_buffer pcm_data TARGET_SAMPLE_RATE true
  = Some [(audio, start_time, end_time)] ->
  2 * len audio = len pcm_data
  /\ start_time = 0%Q
  /\ exists ready,
       check_buffer_status pcm_data TARGET_SAMPLE_RATE true target
       = Some (end_time, ready).
Proof.
  unfold whole_buffer, process_pcm_data, frombuffer_int16.
  destruct (Z.eqb_spec (len pcm_data mod 2) 0) as [E | E]; [| discriminate].
  simpl. intros H. inversion H; subst. clear H.
  assert (Hlen : len (map f32_of_int16 (int16_pairs pcm_data))
                 = len pcm_data / 2).
  { unfold len in *. rewrite length_map.
    rewrite (int16_pairs_len (Z.to_nat (Z.of_nat (length pcm_data) / 2)));
      Z.div_mod_to_equations; lia. }
  split; [rewrite Hlen; Z.div_mod_to_equations; lia |].
  split; [reflexivity |].
  unfold check_buffer_status, calculate_pcm_duration, py_truediv. simpl.
  rewrite Hlen. eexists. reflexivity.
Qed.



(** X13. A first call with the finish-task action (the store does not hold
    the session) runs a round whatever the target, keeps no segment back,
    hands every segment to the engine, commits the whole buffer duration
    and leaves the overlap buffer empty. *)
Theorem finish_task_first_call_commits_everything
    (audio_cache : gmap string Session.t) (audio_data : bytes)
    (params : Params.t) (d : Q) (ready : bool)
    (audio_segments : list Segment) (vad_calls : Z)
    (current_chunks : list Chunk) :
  let session_id := Params.task_id params in
  let o := _execute_streaming_service audio_cache (Some audio_data) params in
  session_id <> "" ->
  audio_cache !! session_id = None ->
  Params.action params = Some "finish-task" ->
  check_buffer_status audio_data (Params.sample_rate params)
    (Params.is_int16 params) (Params.target_buffer_length params)
  = Some (d, ready) ->
  process_with_vad audio_data (Params.sample_rate params)
    (Params.is_int16 params) (Params.use_vad params)
    (Params.hallucinate_threshold params) (Params.vad_mode params)
  = Some (audio_segments, vad_calls) ->
  transcribe_segments audio_segments 0 (Params.time_offset params)
    (format_language (Params.language params)) = Some current_chunks ->
  events o = [Combined audio_data; Segmented audio_segments vad_calls;
              Transcribed current_chunks; Committed d]
  /\ exists s', cache_after o !! session_id = Some s'
                /\ Session.overlap_buffer s' = []
                /\ Session.audio_buffer s' = []
                /\ Session.processed_length s' = (0 + d)%Q
                /\ Session.accumulated_chunks s' = current_chunks.
Proof.
  intros sid o Hid Hnew Hact Hcheck Hvad Htr. subst o.
  unfold _execute_streaming_service. fold sid.
  apply String.eqb_neq in Hid. rewrite Hid.
  assert (Hin : in_cache audio_cache sid = false).
  { unfold in_cache. apply bool_decide_eq_false. rewrite Hnew.
    intros [x Hx]. discriminate. }
  rewrite Hin, !andb_false_r, Hact. cbn [default from_option id].
  unfold streaming_round. rewrite Hnew. cbn [default from_option id].
  unfold session_round, new_session.
  cbn [Session.audio_buffer Session.sample_rate Session.is_int16
       Session.overlap_buffer Session.processed_length
       Session.set_audio_buffer app].
  rewrite Hcheck. simpl String.eqb. rewrite andb_false_r.
  rewrite Hvad. unfold withhold_last. simpl String.eqb. cbv iota.
  cbn [Session.processed_length]. rewrite Htr.
  unfold effective_duration_of. cbn [andb].
  destruct current_chunks as [| c cs].
  - cbn [non_empty events cache_after app]. split; [reflexivity |].
    eexists. rewrite lookup_insert_eq. split; [reflexivity |].
    repeat split; reflexivity.
  - cbn [non_empty].
    destruct (create_srt_content _ 0);
      cbn [events cache_after app]; (split; [reflexivity |]);
      eexists; rewrite lookup_insert_eq; (split; [reflexivity |]);
      repeat split; reflexivity.
Qed.

End MoreRoundFacts.

(** ** The further properties at concrete inputs *)

Lemma other_sessions_untouched_witness :
  cache_after
    (_execute_streaming_service (C:=demo) one_sample_store
       (Some [Byte.x00; Byte.x00]) (scenario_A_params "session-2" "zh" 3 0))
    !! "session-1"
  = one_sample_store !! "session-1".
Proof.
  apply (other_sessions_untouched (C:=demo) one_sample_store
           (Some [Byte.x00; Byte.x00]) (scenario_A_params "session-2" "zh" 3 0)
           "session-1").
  discriminate.
Defined.

Lemma call_reads_own_session_only_witness :
  let p := scenario_A_params "session-1" "zh" 3 0 in
  let o1 := _execute_streaming_service (C:=demo) one_sample_store
              (Some [Byte.x00; Byte.x00]) p in
  let o2 := _execute_streaming_service (C:=demo) two_session_store
              (Some [Byte.x00; Byte.x00]) p in
  response o1 = response o2
  /\ events o1 = events o2
  /\ cache_after o1 !! Params.task_id p = cache_after o2 !! Params.task_id p.
Proof.
  apply (call_reads_own_session_only (C:=demo) one_sample_store
           two_session_store (Some [Byte.x00; Byte.x00])
           (scenario_A_params "session-1" "zh" 3 0)).
  vm_compute. reflexivity.
Defined.

Lemma session_format_fixed_witness :
  let s := Session.mk [Byte.x00; Byte.x00] 16000 true 0 [] [] 0 None in
  let s' := Session.mk [Byte.x00; Byte.x00; Byte.x01; Byte.x02] 16000 true 0
              [] [] 0 None in
  Params.sample_rate other_format_params = 8000
  /\ Params.is_int16 other_format_params = false
  /\ Session.sample_rate s' = Session.sample_rate s
  /\ Session.is_int16 s' = Session.is_int16 s.
Proof.
  intros s s'. split; [reflexivity |]. split; [reflexivity |].
  apply (session_format_fixed (C:=demo) one_sample_store
           (Some [Byte.x01; Byte.x02]) other_format_params "session-1" s s');
    vm_compute; reflexivity.
Defined.

Lemma processed_length_never_decreases_witness :
  exists s',
    cache_after
      (_execute_streaming_service (C:=demo) one_sample_store
         (Some [Byte.x00; Byte.x00]) (eager_params "session-1"))
      !! "session-1" = Some s'
    /\ Session.processed_length s' == 2 # 16000
    /\ (0 <= Session.processed_length s')%Q.
Proof.
  eexists. split; [vm_compute; reflexivity |].
  split; [vm_compute; reflexivity |].
  apply (processed_length_never_decreases (C:=demo) one_sample_store
           (Some [Byte.x00; Byte.x00]) (eager_params "session-1") "session-1"
           (Session.mk [Byte.x00; Byte.x00] 16000 true 0 [] [] 0 None));
    vm_compute; reflexivity.
Defined.


Lemma finalize_keeps_store_witness :
  let o := _execute_streaming_service (C:=demo) one_sample_store None
             (scenario_A_params "session-1" "zh" 3 0) in
  cache_after o = one_sample_store
  /\ events o = []
  /\ ((exists content message, response o = completed content message)
      \/ response o = raise_OverflowError).
Proof.
  apply (finalize_keeps_store (C:=demo) one_sample_store None
           (scenario_A_params "session-1" "zh" 3 0)
           (Session.mk [Byte.x00; Byte.x00] 16000 true 0 [] [] 0 None));
    [discriminate | vm_compute; reflexivity | reflexivity | left; reflexivity].
Defined.

Lemma clear_resets_session_witness :
  let o := _execute_streaming_service (C:=demo) one_sample_store
             (Some [Byte.x01]) (clear_params "session-1") in
  let next := _execute_streaming_service (C:=demo) (cache_after o)
                (Some [Byte.x00; Byte.x00])
                (scenario_A_params "session-1" "zh" 3 0) in
  let fresh := _execute_streaming_service (C:=demo) ∅
                 (Some [Byte.x00; Byte.x00])
                 (scenario_A_params "session-1" "zh" 3 0) in
  response o = cache_cleared
  /\ events o = []
  /\ cache_after o = delete (Params.task_id (clear_params "session-1"))
                       one_sample_store
  /\ response next = response fresh
  /\ events next = events fresh
  /\ cache_after next !! Params.task_id (clear_params "session-1")
     = cache_after fresh !! Params.task_id (clear_params "session-1").
Proof.
  apply (clear_resets_session (C:=demo) one_sample_store (Some [Byte.x01])
           (clear_params "session-1")
           (Session.mk [Byte.x00; Byte.x00] 16000 true 0 [] [] 0 None)
           (Some [Byte.x00; Byte.x00])
           (scenario_A_params "session-1" "zh" 3 0));
    [discriminate | vm_compute; reflexivity | reflexivity | reflexivity].
Defined.

Lemma round_consumes_pending_witness :
  exists s',
    cache_after
      (_execute_streaming_service (C:=demo) one_sample_store
         (Some [Byte.x00; Byte.x00]) (eager_params "session-1"))
      !! Params.task_id (eager_params "session-1") = Some s'
    /\ Session.audio_buffer s' = [].
Proof.
  apply (round_consumes_pending (C:=demo) one_sample_store
           (Some [Byte.x00; Byte.x00]) (eager_params "session-1")).
  intros E. apply (f_equal length) in E. vm_compute in E. discriminate.
Defined.


Lemma overlap_is_suffix_of_round_input_witness :
  exists s',
    cache_after
      (_execute_streaming_service (C:=demo) ∅ (Some speech_after_silence)
         continuity_params)
      !! Params.task_id continuity_params = Some s'
    /\ Session.overlap_buffer s' `suffix_of` speech_after_silence.
Proof.
  pose proof
    (overlap_is_suffix_of_round_input (C:=demo) ∅ (Some speech_after_silence)
       continuity_params speech_after_silence
       [(map (f32_of_int16 (Collaborators:=demo))
           (slice 480 10560 (int16_pairs speech_after_silence)),
         30 # 1000, 660 # 1000)%Q] 22
       [Transcribed []; Committed (30 # 1000)]) as H.
  cbv zeta in H. apply H.
  - discriminate.
  - vm_cast_no_check
      (@eq_refl (list (Event (C:=demo)))
         (events (_execute_streaming_service (C:=demo) ∅
                    (Some speech_after_silence) continuity_params))).
Defined.



Lemma finish_task_first_call_commits_everything_witness :
  let o := _execute_streaming_service (C:=demo) ∅ (Some [Byte.x00; Byte.x00])
             finish_params in
  let seg : Segment (C:=demo) := ([0 # 32768], 0, 1 # 16000)%Q in
  let chunk := mk_chunk "speech" (0 + (0 + 0 + 0)) ((1 # 16000) + (0 + 0 + 0)) in
  events o
  = [Combined [Byte.x00; Byte.x00]; Segmented [seg] 0;
     Transcribed [chunk]; Committed (1 # 16000)]
  /\ exists s', cache_after o !! Params.task_id finish_params = Some s'
                /\ Session.overlap_buffer s' = []
                /\ Session.audio_buffer s' = []
                /\ Session.processed_length s' = (0 + (1 # 16000))%Q
                /\ Session.accumulated_chunks s' = [chunk].
Proof.
  cbv zeta.
  apply (finish_task_first_call_commits_everything (C:=demo) ∅
           [Byte.x00; Byte.x00] finish_params (1 # 16000) false
           [(([0 # 32768], 0, 1 # 16000)%Q : Segment (C:=demo))] 0
           [mk_chunk "speech" (0 + (0 + 0 + 0)) ((1 # 16000) + (0 + 0 + 0))]);
    try discriminate; reflexivity.
Defined.

Lemma process_with_vad_never_empty_witness :
  [([0 # 32768], 0, 1 # 16000)%Q] <> [] /\ 0 <= 0.
Proof.
  apply (process_with_vad_never_empty (C:=demo) [Byte.x00; Byte.x00] 16000
           true true 100 3 [([0 # 32768], 0, 1 # 16000)%Q] 0).
  reflexivity.
Defined.


Lemma silent_or_wrapped_samples_never_loud_witness :
  _is_audio_loud_enough default_vad [0; -32768; 0; -32768] = false.
Proof.
  apply (silent_or_wrapped_samples_never_loud default_vad [0; -32768; 0; -32768]);
    [discriminate |].
  repeat (constructor; [(left; reflexivity) || (right; reflexivity) |]).
  constructor.
Defined.

Lemma whole_buffer_spans_buffer_duration_witness :
  2 * len [(0 # 32768)%Q] = len [Byte.x00; Byte.x00]
  /\ 0%Q = 0%Q
  /\ exists ready,
       check_buffer_status [Byte.x00; Byte.x00] TARGET_SAMPLE_RATE true 3
       = Some (1 # 16000, ready).
Proof.
  apply (whole_buffer_spans_buffer_duration (C:=demo) [Byte.x00; Byte.x00]
           [(0 # 32768)%Q] 0 (1 # 16000) 3).
  reflexivity.
Defined.

Lemma no_speech_verdict_gives_whole_buffer_witness :
  segment_audio (C:=vad_down) small_vad [5; 5; 7; 7] true
  = Some ([_transfer_audiodata_to_float (C:=vad_down) [5; 5; 7; 7]],
          [(0%Q, (inject_Z (len [5; 5; 7; 7]) / inject_Z (sample_rate small_vad))%Q)]).
Proof.
  apply (no_speech_verdict_gives_whole_buffer (C:=vad_down) small_vad
           [5; 5; 7; 7]); discriminate.
Defined.

Lemma trailing_partial_frame_is_ignored_witness :
  classify_frames (C:=demo) small_vad ([5; 5; 0; 0] ++ [7])
    (len ([5; 5; 0; 0] ++ [7]) / vad_frame_size small_vad)
  = classify_frames (C:=demo) small_vad [5; 5; 0; 0]
      (len [5; 5; 0; 0] / vad_frame_size small_vad)
  /\ speech_segments_indices small_vad
       (len ([5; 5; 0; 0] ++ [7]) / vad_frame_size small_vad)
       (classify_frames (C:=demo) small_vad ([5; 5; 0; 0] ++ [7])
          (len ([5; 5; 0; 0] ++ [7]) / vad_frame_size small_vad))
     = speech_segments_indices small_vad
         (len [5; 5; 0; 0] / vad_frame_size small_vad)
         (classify_frames (C:=demo) small_vad [5; 5; 0; 0]
            (len [5; 5; 0; 0] / vad_frame_size small_vad)).
Proof.
  apply (trailing_partial_frame_is_ignored (C:=demo) small_vad [5; 5; 0; 0]
           [7]); reflexivity.
Defined.

Lemma format_timedelta_width_witness :
  timedelta_seconds (90000 + (1 # 2)) = Some (mk_timedelta 1 3600 500000)
  /\ String.length (format_timedelta (mk_timedelta 1 3600 500000)) = 12%nat
  /\ exists hh mm ss mmm,
       format_timedelta (mk_timedelta 1 3600 500000)
       = hh +:+ ":" +:+ mm +:+ ":" +:+ ss +:+ "," +:+ mmm
       /\ String.length hh = 2%nat /\ String.length mm = 2%nat
       /\ String.length ss = 2%nat /\ String.length mmm = 3%nat.
Proof.
  split; [reflexivity |].
  apply (format_timedelta_width (90000 + (1 # 2)) (mk_timedelta 1 3600 500000)).
  reflexivity.
Defined.

Lemma single_pass_keeps_engine_times_witness :
  let chunks := [mk_chunk "a" 0 2; mk_chunk "b" (18 # 10) 3] in
  Forall2 (fun line chunk =>
             line_start line == start_ts chunk
             /\ line_end line == end_ts chunk
             /\ snd line = text chunk)
    (file_service_lines chunks) chunks.
Proof.
  apply (single_pass_keeps_engine_times
           [mk_chunk "a" 0 2; mk_chunk "b" (18 # 10) 3]).
  vm_compute. intuition discriminate.
Defined.

Lemma int16_bytes_round_trip_witness :
  frombuffer_int16 (tobytes_int16 [-32768; -1; 0; 258; 32767])
  = Some [-32768; -1; 0; 258; 32767]
  /\ tobytes_int16 [513; -32768] = [Byte.x01; Byte.x02; Byte.x00; Byte.x80].
Proof.
  split.
  - apply (proj1 int16_bytes_round_trip).
    repeat (constructor; [lia |]). constructor.
  - apply (proj2 int16_bytes_round_trip). reflexivity.
Defined.
